(** * B-Progress: the state synchronisation layer and the state reducers

    A shallow embedding of [src/services/storage.ts] (the [DataService]
    object: [signOut], [loadState], [saveState], [loadMasterState]) and of the
    reducers [handleUpdateRecord] and [handleSendMessage] of [src/App.tsx].

    The payloads that cross the storage boundary are of static type [any]
    (the result of [JSON.parse], a column read through the Supabase client),
    so the storage layer is embedded over untyped JavaScript values with the
    dynamic checks the code performs (truthiness, member access, spreading).
    The reducers of [App.tsx] work on the statically typed React state and
    are embedded over records. *)

From Stdlib Require Import ZArith Ascii String List Bool Lia.
From Stdlib Require DecimalString DecimalZ DecimalPos DecimalN DecimalFacts.
From stdpp Require Import base option list strings gmap.

Local Open Scope Z_scope.

(** ** JavaScript values *)

(** Numbers.  [Finite z] is the double whose value is the integer [z]; NaN
    and the two infinities are the doubles that have no JSON text.  Doubles
    with a fractional part and the negative zero are not represented. *)
Inductive number : Type :=
| Finite (z : Z)
| NaN
| Infinity (negative : bool).

(** Values.  A string is a sequence of code units in the range 0..255; an
    object is the list of its own enumerable properties in property order;
    an array is the list of its elements. *)
Local Unset Elimination Schemes.
Inductive value : Type :=
| VUndefined
| VNull
| VBool (b : bool)
| VNumber (n : number)
| VString (s : string)
| VArray (elems : list value)
| VObject (props : list (string * value)).
Local Set Elimination Schemes.

Definition object : Type := list (string * value).

Global Instance number_eq_dec : EqDecision number.
Proof. solve_decision. Defined.

Global Instance value_inhabited : Inhabited value := populate VUndefined.

(** Structural recursion through the two list constructors. *)
Section value_induction.
Variable P : value → Prop.
Hypothesis Hundefined : P VUndefined.
Hypothesis Hnull : P VNull.
Hypothesis Hbool : ∀ b, P (VBool b).
Hypothesis Hnumber : ∀ n, P (VNumber n).
Hypothesis Hstring : ∀ s, P (VString s).
Hypothesis Harray : ∀ elems, Forall P elems → P (VArray elems).
Hypothesis Hobject : ∀ props, Forall (λ kv, P kv.2) props → P (VObject props).

Fixpoint value_ind (v : value) : P v :=
  match v with
    | VUndefined => Hundefined
    | VNull => Hnull
    | VBool b => Hbool b
    | VNumber n => Hnumber n
    | VString s => Hstring s
    | VArray elems =>
        Harray elems
          ((fix go (l : list value) : Forall P l :=
              match l with
              | [] => List.Forall_nil P
              | x :: l' => @List.Forall_cons _ P x l' (value_ind x) (go l')
              end) elems)
    | VObject props =>
        Hobject props
          ((fix go (l : list (string * value)) : Forall (λ kv, P kv.2) l :=
              match l with
              | [] => List.Forall_nil _
              | kv :: l' => @List.Forall_cons _ (λ kv, P kv.2) kv l' (value_ind kv.2) (go l')
              end) props)
    end.
End value_induction.

(** ToBoolean. *)
Definition truthy (v : value) : bool :=
  match v with
  | VUndefined | VNull => false
  | VBool b => b
  | VNumber (Finite z) => negb (z =? 0)
  | VNumber NaN => false
  | VNumber (Infinity _) => true
  | VString s => negb (String.eqb s "")
  | VArray _ | VObject _ => true
  end.

(** A string used as a condition: [if (userId)], [if (saved)]. *)
Definition nonempty (s : string) : bool := negb (String.eqb s "").

Definition is_nullish (v : value) : bool :=
  match v with VUndefined | VNull => true | _ => false end.

Definition is_object (v : value) : bool :=
  match v with VObject _ => true | _ => false end.

Definition is_array (v : value) : bool :=
  match v with VArray _ => true | _ => false end.

Definition is_primitive (v : value) : bool :=
  match v with VArray _ | VObject _ => false | _ => true end.

(** [a || b] *)
Definition or_else (a b : value) : value := if truthy a then a else b.

(** Own-property lookup in an object: the first binding of the name,
    [undefined] when there is none. *)
Fixpoint obj_get (o : object) (name : string) : value :=
  match o with
  | [] => VUndefined
  | (k, v) :: o' => if String.eqb k name then v else obj_get o' name
  end.

(** Definition of a property, as the object literal [{...o, name: v}] does
    it: an existing property keeps its place and takes the new value, a new
    one is added last. *)
Fixpoint obj_set (o : object) (name : string) (v : value) : object :=
  match o with
  | [] => [(name, v)]
  | (k, w) :: o' =>
      if String.eqb k name then (k, v) :: o' else (k, w) :: obj_set o' name v
  end.

Definition obj_assign (o : object) (updates : object) : object :=
  fold_left (λ acc kv, obj_set acc kv.1 kv.2) updates o.

(** ** Completions: values, thrown exceptions and early returns *)

Inductive exn : Type :=
| TypeError
| SyntaxError
| Rejected (reason : value).

(** The completion of an expression or of a call. *)
Inductive completion (A : Type) : Type :=
| Normal (a : A)
| Throw (e : exn).
Global Arguments Normal {A} a.
Global Arguments Throw {A} e.

Global Instance completion_ret : MRet completion := @Normal.
Global Instance completion_bind : MBind completion :=
  λ A B f c, match c with Normal a => f a | Throw e => Throw e end.

(** The completion of a statement inside a function that returns an [R]. *)
Inductive stmt (R A : Type) : Type :=
| Next (a : A)
| Return (r : R)
| Raise (e : exn).
Global Arguments Next {R A} a.
Global Arguments Return {R A} r.
Global Arguments Raise {R A} e.

Global Instance stmt_ret R : MRet (stmt R) := @Next R.
Global Instance stmt_bind R : MBind (stmt R) :=
  λ A B f s,
    match s with Next a => f a | Return r => Return r | Raise e => Raise e end.

(** [try { body } catch (e) { handler }] *)
Definition try_catch {R A} (body : stmt R A) (handler : exn → stmt R A) : stmt R A :=
  match body with
  | Raise e => handler e
  | _ => body
  end.

(** An awaited promise, or any expression that may throw, used in a
    statement. *)
Definition await {R A} (c : completion A) : stmt R A :=
  match c with Normal a => Next a | Throw e => Raise e end.

(** The result of calling a function with the given body; running off the
    end yields [falloff]. *)
Definition call {R} (falloff : R) (body : stmt R unit) : completion R :=
  match body with
  | Next _ => Normal falloff
  | Return r => Normal r
  | Raise e => Throw e
  end.

(** Member access [v.name] for a name that is not defined on the built-in
    prototypes (the program reads [state_json], [currentUser], [users],
    [records], [messages], [statuses], [groups] and [id]): a TypeError on
    [undefined] and [null], the own property of an object, [undefined] on
    every other value. *)
Definition member (v : value) (name : string) : completion value :=
  match v with
  | VUndefined | VNull => Throw TypeError
  | VObject o => Normal (obj_get o name)
  | _ => Normal VUndefined
  end.

Fixpoint code_points (s : string) : list value :=
  match s with
  | EmptyString => []
  | String c s' => VString (String c EmptyString) :: code_points s'
  end.

(** The elements produced by spreading [...v] inside an array literal:
    arrays and strings are iterable, nothing else in the model is. *)
Definition iterate (v : value) : completion (list value) :=
  match v with
  | VArray elems => Normal elems
  | VString s => Normal (code_points s)
  | _ => Throw TypeError
  end.

(** [Array.prototype.map] with a callback that may throw. *)
Fixpoint array_map {A B} (f : A → completion B) (l : list A) : completion (list B) :=
  match l with
  | [] => Normal []
  | x :: l' => y ← f x; ys ← array_map f l'; Normal (y :: ys)
  end.

(** [Array.prototype.reduce] with an initial value and a callback that may
    throw. *)
Fixpoint reduce {A B} (f : B → A → completion B) (l : list A) (init : B) : completion B :=
  match l with
  | [] => Normal init
  | x :: l' => acc ← f init x; reduce f l' acc
  end.

(** SameValueZero, the key equality of [Map].  Objects and arrays are equal
    only to themselves; two occurrences of an object in a tree of values
    that came off the wire are two distinct objects. *)
Definition same_value_zero (a b : value) : bool :=
  match a, b with
  | VUndefined, VUndefined | VNull, VNull => true
  | VBool x, VBool y => Bool.eqb x y
  | VNumber x, VNumber y => bool_decide (x = y)
  | VString x, VString y => String.eqb x y
  | _, _ => false
  end.

(** [Map.prototype.set]: a present key keeps its position. *)
Fixpoint Map_set (m : list (value * value)) (k v : value) : list (value * value) :=
  match m with
  | [] => [(k, v)]
  | (k', v') :: m' =>
      if same_value_zero k' k then (k', v) :: m' else (k', v') :: Map_set m' k v
  end.

(** [new Map(entries)] *)
Definition Map_new (entries : list (value * value)) : list (value * value) :=
  fold_left (λ m kv, Map_set m kv.1 kv.2) entries [].

(** [Array.from(m.values())] *)
Definition Map_values (m : list (value * value)) : list value := m.*2.

(** ** The platform: local storage and the Supabase client *)

(** [localStorage] is a finite map from keys to texts; its quota is not
    modelled, so [setItem] always succeeds.  What the service writes to the
    console is not modelled either. *)
Definition getItem (k : string) (ls : gmap string string) : option string := ls !! k.
Definition setItem (k v : string) (ls : gmap string string) : gmap string string := <[k := v]> ls.
Definition removeItem (k : string) (ls : gmap string string) : gmap string string := delete k ls.

(** A row of [select('state_json')]; an absent column is [VUndefined]. *)
Record row : Type := Row { state_json : value }.

(** The [{ data, error }] pair a query resolves to. *)
Record reply (A : Type) : Type := Reply { data : option A; error : option string }.
Global Arguments Reply {A} data error.
Global Arguments data {A} r.
Global Arguments error {A} r.

(** What the remote answers to the four requests of the service; a rejected
    promise is a [Throw]. *)
Record SupabaseClient : Type := {
  (* supabase.auth.signOut() *)
  auth_signOut : completion unit;
  (* from('app_state').select('state_json').eq('id', userId).single() *)
  select_single : string → completion (reply row);
  (* from('app_state').select('state_json') *)
  select_all : completion (reply (list row));
  (* from('app_state').upsert({ id: userId, state_json: state }, { onConflict: 'id' }) *)
  upsert : string → value → completion unit
}.

(** What [storage.ts] imports and finds at module load: the constants of
    [constants.ts] (not part of the sources, hence parameters: the storage
    key and the two seeded arrays), the two [JSON] built-ins, and the client
    handle, which is [null] unless both SUPABASE_URL and SUPABASE_KEY are
    set.  [JSON_stringify] yields [None] for JavaScript's [undefined];
    [JSON_parse] throws on a malformed text. *)
Record Env : Type := {
  STORAGE_KEY : string;
  INITIAL_USERS : list value;
  INITIAL_TASKS : list value;
  JSON_stringify : value → option string;
  JSON_parse : string → completion value;
  supabase : option SupabaseClient
}.

(** ** [DataService] of [src/services/storage.ts] *)
Module DataService.
Section service.
Context (env : Env).

Definition isCloudEnabled : bool :=
  match supabase env with Some _ => true | None => false end.

(** [supabase!]: the assertion is erased, a member access on [null] throws. *)
Definition the_client {R} : stmt R SupabaseClient :=
  match supabase env with Some client => Next client | None => Raise TypeError end.

(** The template literal [`${STORAGE_KEY}_${userId}`]. *)
Definition user_key (userId : string) : string :=
  STORAGE_KEY env +:+ "_" +:+ userId.

(** The object literal that [loadState] returns last and that
    [loadMasterState] names [defaultState]. *)
Definition defaultState : object :=
  [ ("users", VArray (INITIAL_USERS env));
    ("tasks", VArray (INITIAL_TASKS env));
    ("records", VArray []);
    ("messages", VArray []);
    ("groups", VArray []);
    ("statuses", VArray []);
    ("currentUser", VNull) ].

(** The string that [setItem] stores for the result of [JSON.stringify]. *)
Definition stored_text (json : option string) : string :=
  match json with Some s => s | None => "undefined" end.

Definition signOut (ls : gmap string string) : gmap string string * completion unit :=
  match (match supabase env with
         | Some client => auth_signOut client
         | None => Normal tt
         end) with
  | Throw e => (ls, Throw e)
  | Normal _ => (removeItem (STORAGE_KEY env) ls, Normal tt)
  end.

Definition loadState (ls : gmap string string) (userId : string) : completion value :=
  call VUndefined (
    (* 1. Try Cloud (User specific row) *)
    (if isCloudEnabled && nonempty userId then
       try_catch
         (client ← the_client;
          r ← await (select_single client userId);
          match data r with
          | Some rw =>
              if truthy (state_json rw) then Return (state_json rw) else Next tt
          | None => Next tt
          end)
         (λ e, Next tt)
     else Next tt);;
    (* 2. Fallback to Local Storage *)
    match getItem (user_key userId) ls with
    | Some saved =>
        if nonempty saved then
          try_catch (v ← await (JSON_parse env saved); Return v) (λ e, Next tt)
        else Next tt
    | None => Next tt
    end;;
    (* 3. Absolute fallback to fresh state for new user *)
    Return (VObject defaultState)).

Definition saveState (userId : string) (state : value) (ls : gmap string string)
  : gmap string string * completion unit :=
  if negb (nonempty userId) then (ls, Normal tt)
  else
    (* Backup locally per user *)
    let ls' := setItem (user_key userId) (stored_text (JSON_stringify env state)) ls in
    (* Sync to Cloud per user *)
    (ls',
     call tt
       (if isCloudEnabled then
          try_catch
            (client ← the_client;
             _ ← await (upsert client userId state);
             Next tt)
            (λ e, Next tt)
        else Next tt)).

(** The callback of [data.reduce] in [loadMasterState]. *)
Definition merge_row (acc : object) (rw : row) : completion object :=
  let userState := state_json rw in
  if negb (truthy userState) then Normal acc
  else
    (* users: [...acc.users, ...(userState.currentUser ? [userState.currentUser] : [])] *)
    accUsers ← iterate (obj_get acc "users");
    currentUser ← member userState "currentUser";
    let users := accUsers ++ (if truthy currentUser then [currentUser] else []) in
    (* records: [...acc.records, ...(userState.records || [])] *)
    accRecords ← iterate (obj_get acc "records");
    userRecords ← member userState "records";
    moreRecords ← iterate (or_else userRecords (VArray []));
    (* messages: [...acc.messages, ...(userState.messages || [])] *)
    accMessages ← iterate (obj_get acc "messages");
    userMessages ← member userState "messages";
    moreMessages ← iterate (or_else userMessages (VArray []));
    (* statuses: [...acc.statuses, ...(userState.statuses || [])] *)
    accStatuses ← iterate (obj_get acc "statuses");
    userStatuses ← member userState "statuses";
    moreStatuses ← iterate (or_else userStatuses (VArray []));
    (* groups: Array.from(new Map([...acc.groups, ...(userState.groups || [])]
                                    .map(g => [g.id, g])).values()) *)
    accGroups ← iterate (obj_get acc "groups");
    userGroups ← member userState "groups";
    moreGroups ← iterate (or_else userGroups (VArray []));
    entries ← array_map (λ g, id ← member g "id"; Normal (id, g)) (accGroups ++ moreGroups);
    let groups := Map_values (Map_new entries) in
    Normal (obj_assign acc
              [ ("users", VArray users);
                ("records", VArray (accRecords ++ moreRecords));
                ("messages", VArray (accMessages ++ moreMessages));
                ("statuses", VArray (accStatuses ++ moreStatuses));
                ("groups", VArray groups) ]).

Definition loadMasterState : completion value :=
  call VUndefined (
    (if negb isCloudEnabled then Return (VObject defaultState) else Next tt);;
    try_catch
      (client ← the_client;
       r ← await (select_all client);
       match error r, data r with
       | None, Some rows =>
           (* Merge all user states into one for the Admin view *)
           merged ← await (reduce merge_row rows defaultState);
           Return (VObject merged)
       | _, _ => Return (VObject defaultState)
       end)
      (λ e, Return (VObject defaultState))).

End service.
End DataService.

(** ** The [JSON] built-ins on the values of the model

    [stringify] follows SerializeJSONProperty of ECMA-262 without a replacer
    or an indent, [parse] the JSON grammar.  A text produced by [stringify]
    holds no white space, no fraction and no exponent. *)
Module JSON.

Definition dquote : ascii := "034"%char.
Definition backslash : ascii := "092"%char.

Fixpoint join (sep : string) (l : list string) : string :=
  match l with
  | [] => ""
  | [x] => x
  | x :: l' => x +:+ sep +:+ join sep l'
  end.

(** *** Writing *)

Definition hex_digit (n : N) : ascii :=
  if (n <? 10)%N then ascii_of_N (48 + n) else ascii_of_N (87 + n).

(** [\u00XX] with lower-case digits, for a control character. *)
Definition unicode_escape (c : ascii) : string :=
  let n := N_of_ascii c in
  String backslash (String "u" (String "0" (String "0"
    (String (hex_digit (n / 16)) (String (hex_digit (n mod 16)) ""))))).

Definition quote_char (c : ascii) : string :=
  let n := N_of_ascii c in
  if (n =? 8)%N then String backslash "b"
  else if (n =? 9)%N then String backslash "t"
  else if (n =? 10)%N then String backslash "n"
  else if (n =? 12)%N then String backslash "f"
  else if (n =? 13)%N then String backslash "r"
  else if (n =? 34)%N then String backslash (String dquote "")
  else if (n =? 92)%N then String backslash (String backslash "")
  else if (n <? 32)%N then unicode_escape c
  else String c "".

Fixpoint quote_chars (s : string) : string :=
  match s with
  | EmptyString => ""
  | String c s' => quote_char c +:+ quote_chars s'
  end.

(** QuoteJSONString *)
Definition quote (s : string) : string :=
  String dquote (quote_chars s +:+ String dquote "").

(** Number::toString of an integer below 10^21: its decimal digits. *)
Definition number_text (z : Z) : string :=
  DecimalString.NilZero.string_of_int (Z.to_int z).

(** SerializeJSONProperty; [None] is [undefined]: the property is left out
    of an object, and written [null] in an array. *)
Fixpoint stringify_value (v : value) : option string :=
  match v with
  | VUndefined => None
  | VNull => Some "null"
  | VBool true => Some "true"
  | VBool false => Some "false"
  | VNumber (Finite z) => Some (number_text z)
  | VNumber NaN | VNumber (Infinity _) => Some "null"
  | VString s => Some (quote s)
  | VArray elems =>
      let texts :=
        (fix go (l : list value) : list string :=
           match l with
           | [] => []
           | e :: l' => default "null" (stringify_value e) :: go l'
           end) elems in
      Some ("[" +:+ join "," texts +:+ "]")
  | VObject props =>
      let texts :=
        (fix go (l : list (string * value)) : list string :=
           match l with
           | [] => []
           | (k, w) :: l' =>
               match stringify_value w with
               | Some t => (quote k +:+ ":" +:+ t) :: go l'
               | None => go l'
               end
           end) props in
      Some ("{" +:+ join "," texts +:+ "}")
  end.

(** [JSON.stringify(v)] *)
Definition stringify (v : value) : option string := stringify_value v.

(** *** Reading *)

Definition is_ws (c : ascii) : bool :=
  let n := N_of_ascii c in
  (n =? 32)%N || (n =? 9)%N || (n =? 10)%N || (n =? 13)%N.

Fixpoint skip_ws (s : string) : string :=
  match s with
  | String c r => if is_ws c then skip_ws r else s
  | EmptyString => ""
  end.

Fixpoint strip_prefix (p s : string) : option string :=
  match p with
  | EmptyString => Some s
  | String a p' =>
      match s with
      | String b s' => if Ascii.eqb a b then strip_prefix p' s' else None
      | EmptyString => None
      end
  end.

Definition hex_value (c : ascii) : option N :=
  let n := N_of_ascii c in
  if (48 <=? n)%N && (n <=? 57)%N then Some (n - 48)%N
  else if (97 <=? n)%N && (n <=? 102)%N then Some (n - 87)%N
  else if (65 <=? n)%N && (n <=? 70)%N then Some (n - 55)%N
  else None.

(** The character a two-character escape stands for. *)
Definition simple_escape (e : ascii) : option ascii :=
  let n := N_of_ascii e in
  if (n =? 34)%N then Some dquote
  else if (n =? 92)%N then Some backslash
  else if (n =? 47)%N then Some "/"%char
  else if (n =? 98)%N then Some "008"%char
  else if (n =? 102)%N then Some "012"%char
  else if (n =? 110)%N then Some "010"%char
  else if (n =? 114)%N then Some "013"%char
  else if (n =? 116)%N then Some "009"%char
  else None.

Definition prepend (c : ascii) (r : option (string * string)) : option (string * string) :=
  match r with Some (s, rest) => Some (String c s, rest) | None => None end.

(** The characters of a string literal after its opening quote, and what
    follows the closing quote.  [None]: a SyntaxError, or a [\uXXXX] escape
    of a code unit above 0xFF, which the strings of the model do not hold. *)
Fixpoint parse_chars (s : string) : option (string * string) :=
  match s with
  | EmptyString => None
  | String c r =>
      if Ascii.eqb c dquote then Some ("", r)
      else if Ascii.eqb c backslash then
        match r with
        | EmptyString => None
        | String e r' =>
            match simple_escape e with
            | Some ch => prepend ch (parse_chars r')
            | None =>
                if Ascii.eqb e "u" then
                  match r' with
                  | String h1 (String h2 (String h3 (String h4 r''))) =>
                      match hex_value h1, hex_value h2, hex_value h3, hex_value h4 with
                      | Some a, Some b, Some c', Some d =>
                          let code := (((a * 16 + b) * 16 + c') * 16 + d)%N in
                          if (code <? 256)%N then prepend (ascii_of_N code) (parse_chars r'')
                          else None
                      | _, _, _, _ => None
                      end
                  | _ => None
                  end
                else None
            end
        end
      else if (N_of_ascii c <? 32)%N then None
      else prepend c (parse_chars r)
  end.

Definition digit_of (c : ascii) : option (Decimal.uint → Decimal.uint) :=
  let n := N_of_ascii c in
  if (n =? 48)%N then Some Decimal.D0
  else if (n =? 49)%N then Some Decimal.D1
  else if (n =? 50)%N then Some Decimal.D2
  else if (n =? 51)%N then Some Decimal.D3
  else if (n =? 52)%N then Some Decimal.D4
  else if (n =? 53)%N then Some Decimal.D5
  else if (n =? 54)%N then Some Decimal.D6
  else if (n =? 55)%N then Some Decimal.D7
  else if (n =? 56)%N then Some Decimal.D8
  else if (n =? 57)%N then Some Decimal.D9
  else None.

(** The longest run of digits at the head of a text. *)
Fixpoint read_digits (s : string) : Decimal.uint * string :=
  match s with
  | EmptyString => (Decimal.Nil, "")
  | String c r =>
      match digit_of c with
      | Some d => let '(u, rest) := read_digits r in (d u, rest)
      | None => (Decimal.Nil, s)
      end
  end.

(** Number.MAX_SAFE_INTEGER *)
Definition MAX_SAFE_INTEGER : Z := 2 ^ 53 - 1.

Definition starts_fraction_or_exponent (s : string) : bool :=
  match s with
  | String c _ => Ascii.eqb c "." || Ascii.eqb c "e" || Ascii.eqb c "E"
  | EmptyString => false
  end.

(** A number token.  [None]: a SyntaxError (no digit, a leading zero), or a
    number outside the model (a fraction or an exponent, the negative zero,
    an integer that is not safe). *)
Definition parse_number (s : string) : option (value * string) :=
  let '(negative, s1) :=
    match s with
    | String c r => if Ascii.eqb c "-" then (true, r) else (false, s)
    | EmptyString => (false, s)
    end in
  let '(u, rest) := read_digits s1 in
  match u with
  | Decimal.Nil => None
  | Decimal.D0 (Decimal.D0 _ | Decimal.D1 _ | Decimal.D2 _ | Decimal.D3 _
               | Decimal.D4 _ | Decimal.D5 _ | Decimal.D6 _ | Decimal.D7 _
               | Decimal.D8 _ | Decimal.D9 _) => None
  | _ =>
      if starts_fraction_or_exponent rest then None
      else
        let z := Z.of_uint u in
        if negative && (z =? 0) then None
        else if MAX_SAFE_INTEGER <? z then None
        else Some (VNumber (Finite (if negative then - z else z)), rest)
  end.

(** An array index: the canonical decimal text of an integer below 2^32-1.
    Properties with such names are enumerated before the others. *)
Definition is_array_index (k : string) : bool :=
  match read_digits k with
  | (Decimal.Nil, _) => false
  | (u, EmptyString) =>
      String.eqb (DecimalString.NilZero.string_of_uint u) k
      && negb (match u with
               | Decimal.D0 (Decimal.D0 _ | Decimal.D1 _ | Decimal.D2 _ | Decimal.D3 _
                            | Decimal.D4 _ | Decimal.D5 _ | Decimal.D6 _ | Decimal.D7 _
                            | Decimal.D8 _ | Decimal.D9 _) => true
               | _ => false
               end)
      && (Z.of_uint u <? 2 ^ 32 - 1)
  | (_, String _ _) => false
  end.

(** The recursive descent; [fuel] bounds the nesting of calls.  An object
    is built property by property, so a repeated name keeps its first
    place and takes the last value.  [None] also when a property name is
    an array index, whose place in the object the model does not compute. *)
Fixpoint parse_value (fuel : nat) (s : string) : option (value * string) :=
  match fuel with
  | O => None
  | S fuel' =>
      match skip_ws s with
      | EmptyString => None
      | String c r =>
          if Ascii.eqb c "n" then
            rest ← strip_prefix "ull" r; Some (VNull, rest)
          else if Ascii.eqb c "t" then
            rest ← strip_prefix "rue" r; Some (VBool true, rest)
          else if Ascii.eqb c "f" then
            rest ← strip_prefix "alse" r; Some (VBool false, rest)
          else if Ascii.eqb c dquote then
            '(str, rest) ← parse_chars r; Some (VString str, rest)
          else if Ascii.eqb c "[" then
            match skip_ws r with
            | String c' r' =>
                if Ascii.eqb c' "]" then Some (VArray [], r')
                else '(elems, rest) ← parse_elements fuel' r; Some (VArray elems, rest)
            | EmptyString => None
            end
          else if Ascii.eqb c "{" then
            match skip_ws r with
            | String c' r' =>
                if Ascii.eqb c' "}" then Some (VObject [], r')
                else '(props, rest) ← parse_members fuel' r []; Some (VObject props, rest)
            | EmptyString => None
            end
          else parse_number (String c r)
      end
  end
with parse_elements (fuel : nat) (s : string) : option (list value * string) :=
  match fuel with
  | O => None
  | S fuel' =>
      '(v, r) ← parse_value fuel' s;
      match skip_ws r with
      | String c r' =>
          if Ascii.eqb c "," then
            '(vs, rest) ← parse_elements fuel' r'; Some (v :: vs, rest)
          else if Ascii.eqb c "]" then Some ([v], r')
          else None
      | EmptyString => None
      end
  end
with parse_members (fuel : nat) (s : string) (acc : object) : option (object * string) :=
  match fuel with
  | O => None
  | S fuel' =>
      match skip_ws s with
      | String c r =>
          if Ascii.eqb c dquote then
            '(k, r1) ← parse_chars r;
            match skip_ws r1 with
            | String c1 r2 =>
                if Ascii.eqb c1 ":" then
                  '(v, r3) ← parse_value fuel' r2;
                  if is_array_index k then None
                  else
                    let acc' := obj_set acc k v in
                    match skip_ws r3 with
                    | String c3 r4 =>
                        if Ascii.eqb c3 "," then parse_members fuel' r4 acc'
                        else if Ascii.eqb c3 "}" then Some (acc', r4)
                        else None
                    | EmptyString => None
                    end
                else None
            | EmptyString => None
            end
          else None
      | EmptyString => None
      end
  end.

(** [JSON.parse(text)] on the texts the model covers: the whole text is one
    value between optional white space. *)
Definition parse (text : string) : option value :=
  '(v, rest) ← parse_value (S (String.length text)) text;
  match skip_ws rest with
  | EmptyString => Some v
  | String _ _ => None
  end.

End JSON.

(** ** The reducers of [src/App.tsx] *)
Module App.

Inductive Role : Type := ADMIN | FRIEND.

Record User : Type := {
  user_id : string;
  user_name : string;
  username : string;
  role : Role;
  joinedAt : string
}.

(** [ProgressRecord], with the fields of the literal in [handleUpdateRecord].
    [userId] and [date] are [None] when [undefined]: the assertions
    [recordUpdate.userId!] and [recordUpdate.date!] are erased, so an update
    without them creates a record that has none. *)
Record ProgressRecord : Type := {
  record_id : string;
  userId : option string;
  date : option string;
  tasksCompleted : list string;
  timeSpentMinutes : number;
  remarks : string;
  dayJournal : string;
  mood : string
}.

(** [Partial<ProgressRecord>]: every property is optional, [None] when it is
    not there. *)
Record RecordUpdate : Type := {
  upd_id : option string;
  upd_userId : option string;
  upd_date : option string;
  upd_tasksCompleted : option (list string);
  upd_timeSpentMinutes : option number;
  upd_remarks : option string;
  upd_dayJournal : option string;
  upd_mood : option string
}.

(** [Array.prototype.findIndex]: the first index whose element passes, -1
    when there is none. *)
Fixpoint findIndex {A} (p : A → bool) (l : list A) : Z :=
  match l with
  | [] => -1
  | x :: l' =>
      if p x then 0
      else let i := findIndex p l' in if i >? -1 then i + 1 else -1
  end.

(** [String.prototype.trim] on code units 0..255: tab, line feed, vertical
    tab, form feed, carriage return, space and no-break space. *)
Definition is_space (c : ascii) : bool :=
  let n := N_of_ascii c in
  ((9 <=? n) && (n <=? 13) || (n =? 32) || (n =? 160))%N.

Fixpoint trim_start (s : string) : string :=
  match s with
  | String c r => if is_space c then trim_start r else s
  | EmptyString => ""
  end.

Fixpoint trim_end (s : string) : string :=
  match s with
  | EmptyString => ""
  | String c r =>
      match trim_end r with
      | EmptyString => if is_space c then "" else String c ""
      | r' => String c r'
      end
  end.

Definition trim (s : string) : string := trim_end (trim_start s).

Section reducers.
(** [Task], [Group], [StatusUpdate] and [Attachment] are declared in
    [types.ts], which is not part of the sources; the two reducers only
    carry their values around. *)
Context {Task Group StatusUpdate Attachment : Type}.

Record Message : Type := {
  message_id : string;
  senderId : string;
  receiverId : string;
  content : string;
  attachment : option Attachment;
  timestamp : string
}.

Record AppState : Type := {
  users : list User;
  tasks : list Task;
  records : list ProgressRecord;
  messages : list Message;
  groups : list Group;
  statuses : list StatusUpdate;
  currentUser : option User
}.

(** [{ ...record, ...recordUpdate }] *)
Definition patch (r : ProgressRecord) (u : RecordUpdate) : ProgressRecord :=
  {| record_id := default (record_id r) (upd_id u);
     userId := match upd_userId u with Some x => Some x | None => userId r end;
     date := match upd_date u with Some x => Some x | None => date r end;
     tasksCompleted := default (tasksCompleted r) (upd_tasksCompleted u);
     timeSpentMinutes := default (timeSpentMinutes r) (upd_timeSpentMinutes u);
     remarks := default (remarks r) (upd_remarks u);
     dayJournal := default (dayJournal r) (upd_dayJournal u);
     mood := default (mood r) (upd_mood u) |}.

(** The literal [newRecord]; [random_id] is the value of
    [Math.random().toString(36).substr(2, 9)]. *)
Definition newRecord (random_id : string) (u : RecordUpdate) : ProgressRecord :=
  {| record_id := random_id;
     userId := upd_userId u;
     date := upd_date u;
     tasksCompleted := default [] (upd_tasksCompleted u);
     timeSpentMinutes :=
       match upd_timeSpentMinutes u with
       | Some n => if truthy (VNumber n) then n else Finite 0
       | None => Finite 0
       end;
     remarks := default "" (upd_remarks u);
     dayJournal := default "" (upd_dayJournal u);
     mood := default "" (upd_mood u) |}.

(** [r.userId === recordUpdate.userId && r.date === recordUpdate.date] *)
Definition same_user_and_date (u : RecordUpdate) (r : ProgressRecord) : bool :=
  bool_decide (userId r = upd_userId u) && bool_decide (date r = upd_date u).

(** The function passed to [setState] by [handleUpdateRecord]. *)
Definition handleUpdateRecord (random_id : string) (recordUpdate : RecordUpdate)
    (prev : option AppState) : option AppState :=
  match prev with
  | None => None
  | Some st =>
      let existingIdx := findIndex (same_user_and_date recordUpdate) (records st) in
      let records' :=
        if existingIdx >? -1 then
          alter (λ r, patch r recordUpdate) (Z.to_nat existingIdx) (records st)
        else records st ++ [newRecord random_id recordUpdate] in
      Some {| users := users st; tasks := tasks st; records := records';
              messages := messages st; groups := groups st;
              statuses := statuses st; currentUser := currentUser st |}
  end.

(** The function passed to [setState] by [handleSendMessage]; [now] is the
    value of [new Date().toISOString()]. *)
Definition handleSendMessage (random_id now : string)
    (receiver text : string) (file : option Attachment)
    (prev : option AppState) : option AppState :=
  match prev with
  | None => prev
  | Some st =>
      match currentUser st with
      | None => prev
      | Some user =>
          if negb (nonempty (trim text)) && negb (bool_decide (is_Some file)) then prev
          else
            let newMessage :=
              {| message_id := random_id; senderId := user_id user;
                 receiverId := receiver; content := text;
                 attachment := file; timestamp := now |} in
            Some {| users := users st; tasks := tasks st; records := records st;
                    messages := messages st ++ [newMessage]; groups := groups st;
                    statuses := statuses st; currentUser := currentUser st |}
      end
  end.

(** The key that [handleUpdateRecord] looks a record up by. *)
Definition record_key (r : ProgressRecord) : option string * option string :=
  (userId r, date r).

End reducers.
End App.

(** ** Vocabulary of the statements *)

(** The static type of a payload of the [state_json] column: [AppState], an
    object type, or nothing ([null], or no column at all). *)
Definition payload_typed (v : value) : bool := is_nullish v || is_object v.

(** The first tier of [loadState] yields nothing: the remote is not
    configured, there is no user id, the request fails, or it brings back no
    row or a row without a payload. *)
Inductive remote_miss (env : Env) (userId : string) : Prop :=
| remote_not_configured :
    supabase env = None → remote_miss env userId
| remote_no_user :
    userId = "" → remote_miss env userId
| remote_failure client e :
    supabase env = Some client →
    select_single client userId = Throw e →
    remote_miss env userId
| remote_no_row client err :
    supabase env = Some client →
    select_single client userId = Normal (Reply None err) →
    remote_miss env userId
| remote_empty_payload client rw err :
    supabase env = Some client →
    select_single client userId = Normal (Reply (Some rw) err) →
    truthy (state_json rw) = false →
    remote_miss env userId.

(** The second tier of [loadState] yields nothing: no text is cached under
    the key of the user, or the cached text is empty, or it does not parse. *)
Inductive local_miss (env : Env) (ls : gmap string string) (userId : string) : Prop :=
| local_absent :
    ls !! DataService.user_key env userId = None → local_miss env ls userId
| local_empty :
    ls !! DataService.user_key env userId = Some "" → local_miss env ls userId
| local_parse_failure saved e :
    ls !! DataService.user_key env userId = Some saved →
    JSON_parse env saved = Throw e →
    local_miss env ls userId.

(** [JSON.parse] as a call that throws, for the texts [JSON.parse] of the
    model reads. *)
Definition JSON_parse_model (text : string) : completion value :=
  match JSON.parse text with
  | Some v => Normal v
  | None => Throw SyntaxError
  end.

(** ** Sample data *)
Module Sample.

Definition admin : value :=
  VObject [("id", VString "admin-1"); ("name", VString "Supporter");
           ("username", VString "admin"); ("role", VString "ADMIN")].

Definition friend (id name : string) : value :=
  VObject [("id", VString id); ("name", VString name);
           ("username", VString name); ("role", VString "FRIEND")].

Definition group (id name : string) : value :=
  VObject [("id", VString id); ("name", VString name);
           ("description", VString ""); ("memberIds", VArray []);
           ("posts", VArray [])].

Definition record (user day : string) (minutes : number) : value :=
  VObject [("id", VString "r1"); ("userId", VString user); ("date", VString day);
           ("tasksCompleted", VArray []); ("timeSpentMinutes", VNumber minutes);
           ("remarks", VString ""); ("dayJournal", VString ""); ("mood", VString "")].

Definition state (user : value) (recs grps : list value) : value :=
  VObject [("users", VArray [admin]); ("tasks", VArray []);
           ("records", VArray recs); ("messages", VArray []);
           ("groups", VArray grps); ("statuses", VArray []);
           ("currentUser", user)].

(** The row of user "u1" and the row of user "u2": both hold a group "g1",
    under different names. *)
Definition state_u1 : value :=
  state (friend "u1" "Ann") [record "u1" "2024-01-01" (Finite 30)] [group "g1" "A"].
Definition state_u2 : value :=
  state (friend "u2" "Bob") [] [group "g1" "B"; group "g2" "C"].

Definition rows : list row := [Row state_u1; Row VNull; Row state_u2].

Definition answering : SupabaseClient :=
  {| auth_signOut := Normal tt;
     select_single := λ id,
       if String.eqb id "u1" then Normal (Reply (Some (Row state_u1)) None)
       else Normal (Reply None (Some "no rows"));
     select_all := Normal (Reply (Some rows) None);
     upsert := λ _ _, Normal tt |}.

Definition unreachable : SupabaseClient :=
  {| auth_signOut := Throw (Rejected (VString "network"));
     select_single := λ _, Throw (Rejected (VString "network"));
     select_all := Throw (Rejected (VString "network"));
     upsert := λ _ _, Throw (Rejected (VString "network")) |}.

Definition env_with (client : option SupabaseClient) : Env :=
  {| STORAGE_KEY := "b_progress_state";
     INITIAL_USERS := [admin];
     INITIAL_TASKS := [VObject [("id", VString "t1"); ("title", VString "Read")]];
     JSON_stringify := JSON.stringify;
     JSON_parse := JSON_parse_model;
     supabase := client |}.

Definition cloud : Env := env_with (Some answering).
Definition offline : Env := env_with None.
Definition failing : Env := env_with (Some unreachable).

End Sample.

(** Sample states of the application shell; tasks, groups, statuses and
    attachments are plain strings here. *)
Module SampleApp.

Definition ann : App.User :=
  {| App.user_id := "u1"; App.user_name := "Ann"; App.username := "ann@example.org";
     App.role := App.FRIEND; App.joinedAt := "2024-01-01T00:00:00.000Z" |}.

Definition monday : App.ProgressRecord :=
  {| App.record_id := "r1"; App.userId := Some "u1"; App.date := Some "2024-01-01";
     App.tasksCompleted := ["t1"]; App.timeSpentMinutes := Finite 30;
     App.remarks := ""; App.dayJournal := ""; App.mood := "ok" |}.

Definition logged_in : @App.AppState string string string string :=
  {| App.users := [ann]; App.tasks := ["t1"]; App.records := [monday];
     App.messages := []; App.groups := []; App.statuses := [];
     App.currentUser := Some ann |}.

Definition update (day : string) (minutes : Z) : App.RecordUpdate :=
  {| App.upd_id := None; App.upd_userId := Some "u1"; App.upd_date := Some day;
     App.upd_tasksCompleted := None;
     App.upd_timeSpentMinutes := Some (Finite minutes);
     App.upd_remarks := None; App.upd_dayJournal := None; App.upd_mood := None |}.

End SampleApp.

(** ** Vocabulary of the statements about [loadMasterState] *)

(** The property [name] of a value that is not nullish. *)
Definition field (v : value) (name : string) : value :=
  match v with
  | VObject o => obj_get o name
  | _ => VUndefined
  end.

Definition elements (v : value) : list value :=
  match v with
  | VArray l => l
  | _ => []
  end.

Definition group_id (g : value) : value := field g "id".

(** A [Group]: an object whose [id] is a primitive value (a string, by its
    declaration). *)
Definition group_typed (g : value) : bool :=
  is_object g && is_primitive (group_id g).

(** An array-valued property of a stored state: there, or left out. *)
Definition array_typed (v : value) : bool := is_nullish v || is_array v.

(** An [AppState], as far as [loadMasterState] looks into it. *)
Definition state_typed (v : value) : bool :=
  is_object v
  && payload_typed (field v "currentUser")
  && array_typed (field v "records")
  && array_typed (field v "messages")
  && array_typed (field v "statuses")
  && array_typed (field v "groups")
  && forallb group_typed (elements (field v "groups")).

(** A row of [app_state]: its payload is an [AppState], or null, or absent. *)
Definition row_typed (rw : row) : bool :=
  is_nullish (state_json rw) || state_typed (state_json rw).

(** The current user embedded in a row, when there is one. *)
Definition current_user_of (rw : row) : list value :=
  let user := field (state_json rw) "currentUser" in
  if is_nullish user then [] else [user].

(** The groups, records, messages and statuses a row holds. *)
Definition groups_of (rw : row) : list value := elements (field (state_json rw) "groups").
Definition records_of (rw : row) : list value := elements (field (state_json rw) "records").
Definition messages_of (rw : row) : list value := elements (field (state_json rw) "messages").
Definition statuses_of (rw : row) : list value := elements (field (state_json rw) "statuses").

(** The shape of the accumulator of [data.reduce]: the properties of
    [defaultState], in its order. *)
Definition accumulator (us ts rs ms gs ss : list value) : object :=
  [ ("users", VArray us); ("tasks", VArray ts); ("records", VArray rs);
    ("messages", VArray ms); ("groups", VArray gs); ("statuses", VArray ss);
    ("currentUser", VNull) ].

(** [Array.from(new Map(gs.map(g => [g.id, g])).values())] *)
Definition dedupe (gs : list value) : list value :=
  Map_values (Map_new ((λ g, (group_id g, g)) <$> gs)).

(** The environment with another client handle. *)
Definition with_client (env : Env) (client : option SupabaseClient) : Env :=
  {| STORAGE_KEY := STORAGE_KEY env;
     INITIAL_USERS := INITIAL_USERS env;
     INITIAL_TASKS := INITIAL_TASKS env;
     JSON_stringify := JSON_stringify env;
     JSON_parse := JSON_parse env;
     supabase := client |}.

(** A client whose select over all rows resolves to the given rows. *)
Definition serving (rows : list row) : SupabaseClient :=
  {| auth_signOut := Normal tt;
     select_single := λ _, Normal (Reply None (Some "no rows"));
     select_all := Normal (Reply (Some rows) None);
     upsert := λ _ _, Normal tt |}.

(** The map [m] after setting the entries in order. *)
Definition Map_fold (m entries : list (value * value)) : list (value * value) :=
  fold_left (λ m kv, Map_set m kv.1 kv.2) entries m.

(** [gs] holds one group per id of [all], the last one of [all] that has
    the id. *)
Definition last_per_id (all gs : list value) : Prop :=
  NoDup (group_id <$> gs) ∧
  (∀ g, g ∈ gs → g ∈ all) ∧
  (∀ before g after,
     all = before ++ g :: after → group_id g ∉ group_id <$> after → g ∈ gs).

(** A row whose [records] is a number: spreading it throws. *)
Definition ill_typed_row : row := Row (VObject [("records", VNumber (Finite 5))]).

(** ** Vocabulary of the statements about the JSON text of a state *)

(** The texts of the elements of an array and of the properties of an
    object, as [JSON.stringify_value] joins them. *)
Definition array_texts (elems : list value) : list string :=
  (λ e, default "null" (JSON.stringify_value e)) <$> elems.

Fixpoint member_texts (props : object) : list string :=
  match props with
  | [] => []
  | (k, w) :: props' =>
      match JSON.stringify_value w with
      | Some t => (JSON.quote k +:+ ":" +:+ t) :: member_texts props'
      | None => member_texts props'
      end
  end.

(** A value that has a JSON text of its own: it holds no [undefined], its
    numbers are safe integers, and its objects have distinct property names
    none of which is an array index. *)
Fixpoint json_safe (v : value) : bool :=
  match v with
  | VUndefined => false
  | VNull | VBool _ | VString _ => true
  | VNumber (Finite z) => Z.abs z <=? JSON.MAX_SAFE_INTEGER
  | VNumber NaN | VNumber (Infinity _) => false
  | VArray elems =>
      (fix all (l : list value) : bool :=
         match l with
         | [] => true
         | e :: l' => json_safe e && all l'
         end) elems
  | VObject props =>
      bool_decide (NoDup props.*1)
      && forallb (λ k, negb (JSON.is_array_index k)) props.*1
      && (fix all (l : list (string * value)) : bool :=
            match l with
            | [] => true
            | (_, w) :: l' => json_safe w && all l'
            end) props
  end.

(** The calls that [JSON.parse_value] nests to read the text of a value. *)
Fixpoint weight (v : value) : nat :=
  match v with
  | VArray elems =>
      S ((fix sum (l : list value) : nat :=
            match l with
            | [] => O
            | e :: l' => (S (weight e) + sum l')%nat
            end) elems)
  | VObject props =>
      S ((fix sum (l : list (string * value)) : nat :=
            match l with
            | [] => O
            | (_, w) :: l' => (S (weight w) + sum l')%nat
            end) props)
  | _ => 1%nat
  end.

(** What may follow a number in a text: not a digit, and not the start of a
    fraction or of an exponent. *)
Definition ends_number (rest : string) : bool :=
  match rest with
  | EmptyString => true
  | String c _ =>
      match JSON.digit_of c with
      | Some _ => false
      | None => negb (JSON.starts_fraction_or_exponent rest)
      end
  end.


(** The characters a JSON text of a value starts with. *)
Definition value_heads : list ascii :=
  ["n"; "t"; "f"; JSON.dquote; "["; "{"; "-";
   "0"; "1"; "2"; "3"; "4"; "5"; "6"; "7"; "8"; "9"]%char.

(** The text of [v] reads back as [v], with enough fuel and whatever
    follows, as long as that cannot continue a number. *)
Definition reads_back (v : value) : Prop :=
  ∃ t, JSON.stringify_value v = Some t ∧
       ∀ fuel rest, (weight v ≤ fuel)%nat → ends_number rest = true →
         JSON.parse_value fuel (t +:+ rest) = Some (v, rest).

(** ** Tactics *)

Ltac in_list :=
  solve [repeat first [assumption | apply list_elem_of_here | apply list_elem_of_further]].

(** ** The other reducers of [src/App.tsx] *)
Module Shell.
Section reducers.
Context {Task Attachment : Type}.

(** A post of a group, with the fields of the literal in
    [handlePostToGroup]. *)
Record Post : Type := {
  post_id : string;
  post_content : string;
  post_attachment : option Attachment;
  authorId : string;
  post_timestamp : string
}.

(** [Group], with the fields of the literal in [handleAddGroup]. *)
Record Group : Type := {
  id : string;
  name : string;
  description : string;
  memberIds : list string;
  posts : list Post
}.

(** [StatusUpdate], with the fields of the literal in [handleUploadStatus];
    [content] is an optional parameter there. *)
Record StatusUpdate : Type := {
  status_id : string;
  status_userId : string;
  userName : string;
  status_content : option string;
  status_attachment : option Attachment;
  status_timestamp : string
}.

Definition State : Type := @App.AppState Task Group StatusUpdate Attachment.

(** [prev ? ({ ...prev, currentUser: user }) : null] *)
Definition handleLogin (user : App.User) (prev : option State) : option State :=
  match prev with
  | None => None
  | Some st =>
      Some {| App.users := App.users st; App.tasks := App.tasks st;
              App.records := App.records st; App.messages := App.messages st;
              App.groups := App.groups st; App.statuses := App.statuses st;
              App.currentUser := Some user |}
  end.

Definition handleSignup (user : App.User) (prev : option State) : option State :=
  match prev with
  | None => None
  | Some st =>
      Some {| App.users := App.users st ++ [user]; App.tasks := App.tasks st;
              App.records := App.records st; App.messages := App.messages st;
              App.groups := App.groups st; App.statuses := App.statuses st;
              App.currentUser := Some user |}
  end.

Definition handleLogout (prev : option State) : option State :=
  match prev with
  | None => None
  | Some st =>
      Some {| App.users := App.users st; App.tasks := App.tasks st;
              App.records := App.records st; App.messages := App.messages st;
              App.groups := App.groups st; App.statuses := App.statuses st;
              App.currentUser := None |}
  end.

(** [random_id] is the value of [Math.random().toString(36).substr(2, 9)]. *)
Definition handleAddGroup (random_id : string)
    (group_name group_description : string) (members : list string)
    (prev : option State) : option State :=
  match prev with
  | None => None
  | Some st =>
      let newGroup :=
        {| id := random_id; name := group_name; description := group_description;
           memberIds := members; posts := [] |} in
      Some {| App.users := App.users st; App.tasks := App.tasks st;
              App.records := App.records st; App.messages := App.messages st;
              App.groups := App.groups st ++ [newGroup];
              App.statuses := App.statuses st;
              App.currentUser := App.currentUser st |}
  end.

(** The callback of [prev.groups.map] in [handlePostToGroup].  The random id
    and the timestamp are taken anew for every group that passes the test:
    [random_id i] and [now i] are their values for the group at index [i]. *)
Definition post_to (random_id now : nat → string) (user : App.User)
    (groupId text : string) (file : option Attachment) (i : nat) (g : Group) : Group :=
  if bool_decide (id g = groupId) then
    {| id := id g; name := name g; description := description g;
       memberIds := memberIds g;
       posts := posts g ++
         [ {| post_id := random_id i; post_content := text;
              post_attachment := file; authorId := App.user_id user;
              post_timestamp := now i |} ] |}
  else g.

Definition handlePostToGroup (random_id now : nat → string)
    (groupId text : string) (file : option Attachment)
    (prev : option State) : option State :=
  match prev with
  | None => prev
  | Some st =>
      match App.currentUser st with
      | None => prev
      | Some user =>
          Some {| App.users := App.users st; App.tasks := App.tasks st;
                  App.records := App.records st; App.messages := App.messages st;
                  App.groups :=
                    imap (post_to random_id now user groupId text file) (App.groups st);
                  App.statuses := App.statuses st;
                  App.currentUser := App.currentUser st |}
      end
  end.

(** [g.id === groupId ? { ...g, memberIds } : g] *)
Definition set_members (groupId : string) (members : list string) (g : Group) : Group :=
  if bool_decide (id g = groupId) then
    {| id := id g; name := name g; description := description g;
       memberIds := members; posts := posts g |}
  else g.

Definition handleUpdateGroupMembers (groupId : string) (members : list string)
    (prev : option State) : option State :=
  match prev with
  | None => None
  | Some st =>
      Some {| App.users := App.users st; App.tasks := App.tasks st;
              App.records := App.records st; App.messages := App.messages st;
              App.groups := set_members groupId members <$> App.groups st;
              App.statuses := App.statuses st;
              App.currentUser := App.currentUser st |}
  end.

(** [now] is the value of [new Date().toISOString()]. *)
Definition handleUploadStatus (random_id now : string)
    (text : option string) (file : option Attachment)
    (prev : option State) : option State :=
  match prev with
  | None => prev
  | Some st =>
      match App.currentUser st with
      | None => prev
      | Some user =>
          let newStatus :=
            {| status_id := random_id; status_userId := App.user_id user;
               userName := App.user_name user; status_content := text;
               status_attachment := file; status_timestamp := now |} in
          Some {| App.users := App.users st; App.tasks := App.tasks st;
                  App.records := App.records st; App.messages := App.messages st;
                  App.groups := App.groups st;
                  App.statuses := App.statuses st ++ [newStatus];
                  App.currentUser := App.currentUser st |}
      end
  end.

End reducers.
End Shell.

(** The user who is logged in, when there is one, is one of the users. *)
Definition current_user_known {Task Group StatusUpdate Attachment : Type}
    (st : @App.AppState Task Group StatusUpdate Attachment) : Prop :=
  ∀ user, App.currentUser st = Some user → user ∈ App.users st.

(** A text that [String.prototype.trim] empties. *)
Fixpoint all_spaces (s : string) : bool :=
  match s with
  | EmptyString => true
  | String c r => App.is_space c && all_spaces r
  end.

(** Sample states of the shell with groups. *)
Module SampleShell.

Definition study : @Shell.Group string :=
  {| Shell.id := "g1"; Shell.name := "Study"; Shell.description := "";
     Shell.memberIds := ["u1"]; Shell.posts := [] |}.

Definition logged_in : @Shell.State string string :=
  {| App.users := [SampleApp.ann]; App.tasks := ["t1"];
     App.records := [SampleApp.monday]; App.messages := [];
     App.groups := [study]; App.statuses := [];
     App.currentUser := Some SampleApp.ann |}.

End SampleShell.

(** ** [signUp] and [signIn] of [src/services/storage.ts] *)

(** The property name of an array index. *)
Definition index_name (i : nat) : string :=
  DecimalString.NilZero.string_of_uint (Nat.to_uint i).

(** The own enumerable properties that the spread [{...v}] copies: those of
    an object, the elements of an array and the characters of a string under
    their indices, and nothing for any other value. *)
Definition own_props (v : value) : object :=
  match v with
  | VObject o => o
  | VArray elems => imap (λ i e, (index_name i, e)) elems
  | VString s => imap (λ i e, (index_name i, e)) (code_points s)
  | _ => []
  end.

(** What [supabase.auth] resolves to: [data.user] and [error]. *)
Record auth_reply : Type := AuthReply { user : value; auth_error : option value }.

(** The answers of [supabase.auth.signUp] (to the e-mail, the password and
    [options.data]) and of [supabase.auth.signInWithPassword]. *)
Record AuthClient : Type := {
  auth_signUp : string → string → value → completion auth_reply;
  auth_signInWithPassword : string → string → completion auth_reply
}.

(** [new Error("Cloud not configured")] *)
Definition cloud_not_configured : value :=
  VObject [("message", VString "Cloud not configured")].

Module Auth.
Section auth.
(** [env] says whether there is a client, [auth] what its [auth] answers,
    and [FRIEND] is the value of [Role.FRIEND], declared in [types.ts]. *)
Context (env : Env) (auth : AuthClient) (FRIEND : value).

(** [{ ...metadata, role: metadata.role || Role.FRIEND }] *)
Definition signUp_data (metadata : value) : completion value :=
  let copied := own_props metadata in
  role ← member metadata "role";
  Normal (VObject (obj_set copied "role" (or_else role FRIEND))).

Definition signUp (email password : string) (metadata : value) : completion value :=
  match supabase env with
  | None => Throw (Rejected cloud_not_configured)
  | Some _ =>
      options_data ← signUp_data metadata;
      r ← auth_signUp auth email password options_data;
      match auth_error r with
      | Some e => Throw (Rejected e)
      | None => Normal (user r)
      end
  end.

Definition signIn (email password : string) : completion value :=
  match supabase env with
  | None => Throw (Rejected cloud_not_configured)
  | Some _ =>
      r ← auth_signInWithPassword auth email password;
      match auth_error r with
      | Some e => Throw (Rejected e)
      | None => Normal (user r)
      end
  end.

End auth.
End Auth.

(** Sample answers of the authentication service. *)
Module SampleAuth.

Definition accepting : AuthClient :=
  {| auth_signUp := λ email _ data,
       Normal (AuthReply (VObject [("email", VString email); ("user_metadata", data)]) None);
     auth_signInWithPassword := λ email password,
       if String.eqb password "secret"
       then Normal (AuthReply (VObject [("email", VString email)]) None)
       else Normal (AuthReply VNull
                      (Some (VObject [("message", VString "Invalid login credentials")]))) |}.

End SampleAuth.

(** ** The session effects of the application shell

    The shell of [src/unnamed/part_004], which calls [loadMasterState],
    [loadState], [saveState] and [signOut]: the body of [initData], the
    auto-save effect and [handleLogout], each as the change it makes to the
    variables of the component and to the local cache.  The loaded state is
    the untyped value that the service returned. *)

(** Strict equality [a === b] with a primitive on one side. *)
Definition strict_equals (a b : value) : bool :=
  match a, b with
  | VNumber NaN, _ | _, VNumber NaN => false
  | _, _ => same_value_zero a b
  end.

(** [email.split('@')[0]] *)
Fixpoint before_at (s : string) : string :=
  match s with
  | EmptyString => ""
  | String c r => if Ascii.eqb c "@" then "" else String c (before_at r)
  end.

(** The user of a Supabase session, with the fields the shell reads. *)
Record SessionUser : Type := {
  session_id : string;
  email : option string;
  user_metadata : value;
  created_at : string
}.

(** The variables of the component. *)
Record ShellVars : Type := {
  state : option value;
  sessionUser : option SessionUser;
  isSyncing : bool
}.

Module Session.
Section session.
(** [ADMIN] and [FRIEND] are the values of [Role.ADMIN] and [Role.FRIEND],
    declared in [types.ts]. *)
Context (env : Env) (ADMIN FRIEND : value).

(** [sessionUser.user_metadata?.role || Role.FRIEND] *)
Definition role_of (s : SessionUser) : value :=
  or_else (field (user_metadata s) "role") FRIEND.

(** The literal [userWithMeta]. *)
Definition userWithMeta (s : SessionUser) : value :=
  VObject
    [ ("id", VString (session_id s));
      ("name",
       or_else (field (user_metadata s) "name")
         (or_else (match email s with
                   | Some e => VString (before_at e)
                   | None => VUndefined
                   end)
            (VString "User")));
      ("username", VString (default "" (email s)));
      ("role", role_of s);
      ("joinedAt", VString (created_at s)) ].

(** The state that [initData] hands to [setState]. *)
Definition initData (ls : gmap string string) (s : SessionUser) : completion value :=
  data ← (if strict_equals (role_of s) ADMIN
          then DataService.loadMasterState env
          else DataService.loadState env ls (session_id s));
  Normal (VObject (obj_set (own_props data) "currentUser" (userWithMeta s))).

(** The auto-save effect: the local cache after it has run.
    [isInitialLoad] is the value of [isInitialLoad.current]. *)
Definition autoSave (vars : ShellVars) (isInitialLoad : bool)
    (ls : gmap string string) : gmap string string :=
  match state vars, sessionUser vars with
  | Some st, Some s =>
      if truthy st && negb isInitialLoad then
        if negb (strict_equals (field (field st "currentUser") "role") ADMIN)
        then (DataService.saveState env (session_id s) st ls).1
        else ls
      else ls
  | _, _ => ls
  end.

(** [handleLogout]: the variables, the local cache and the completion. *)
Definition handleLogout (vars : ShellVars) (ls : gmap string string)
  : ShellVars * gmap string string * completion unit :=
  let syncing := {| state := state vars; sessionUser := sessionUser vars;
                    isSyncing := true |} in
  match DataService.signOut env ls with
  | (ls', Normal _) =>
      ({| state := None; sessionUser := None; isSyncing := false |}, ls', Normal tt)
  | (ls', Throw e) => (syncing, ls', Throw e)
  end.

End session.
End Session.

Module SampleSession.

Definition ann : SessionUser :=
  {| session_id := "u1"; email := Some "ann@example.org";
     user_metadata := VObject [("role", VString "FRIEND")];
     created_at := "2024-01-01T00:00:00.000Z" |}.

Definition boss : SessionUser :=
  {| session_id := "a1"; email := Some "boss@example.org";
     user_metadata := VObject [("name", VString "Boss"); ("role", VString "ADMIN")];
     created_at := "2024-01-01T00:00:00.000Z" |}.

End SampleSession.

(** ** The earlier [DataService] that [App.tsx] calls

    [App.tsx] calls [loadState()] and [saveState(state)] without a user:
    the service of that signature keeps one state under [STORAGE_KEY] and
    talks to the REST endpoint of the table through [fetch]. *)

(** What [fetch] resolves to, as far as [loadState] looks at it:
    [response.ok] and [await response.json()], the rows of the table or a
    falsy value. *)
Record Response : Type := {
  ok : bool;
  json : completion (option (list row))
}.

(** The two environment variables and what the endpoint answers to the
    two requests; a rejected promise is a [Throw]. *)
Record RestApi : Type := {
  SUPABASE_URL : option string;
  SUPABASE_KEY : option string;
  (* fetch(`.../rest/v1/app_state?id=eq.global&select=*`, { headers }) *)
  fetch_select : completion Response;
  (* fetch(`.../rest/v1/app_state?id=eq.global`, { method: 'POST', ..., body }) *)
  fetch_post : value → completion unit
}.

Module Legacy.
Section service.
Context (env : Env) (api : RestApi).

(** [!!(process.env.SUPABASE_URL && process.env.SUPABASE_KEY)] *)
Definition isCloudEnabled : bool :=
  match SUPABASE_URL api, SUPABASE_KEY api with
  | Some url, Some key => nonempty url && nonempty key
  | _, _ => false
  end.

Definition loadState (ls : gmap string string) : completion value :=
  call VUndefined (
    (* 1. Always check Cloud first for cross-browser consistency *)
    (if isCloudEnabled then
       try_catch
         (response ← await (fetch_select api);
          if ok response then
            data ← await (json response);
            match data with
            | Some (rw :: _) => Return (state_json rw)
            | _ => Next tt
            end
          else Next tt)
         (λ e, Next tt)
     else Next tt);;
    (* 2. Fallback to Local Storage if Cloud fails or is not configured *)
    match getItem (STORAGE_KEY env) ls with
    | Some saved =>
        if nonempty saved then
          try_catch
            (parsed ← await (JSON_parse env saved);
             users ← await (member parsed "users");
             tasks ← await (member parsed "tasks");
             records ← await (member parsed "records");
             messages ← await (member parsed "messages");
             groups ← await (member parsed "groups");
             statuses ← await (member parsed "statuses");
             currentUser ← await (member parsed "currentUser");
             Return (VObject
               [ ("users", or_else users (VArray (INITIAL_USERS env)));
                 ("tasks", or_else tasks (VArray (INITIAL_TASKS env)));
                 ("records", or_else records (VArray []));
                 ("messages", or_else messages (VArray []));
                 ("groups", or_else groups (VArray []));
                 ("statuses", or_else statuses (VArray []));
                 ("currentUser", or_else currentUser VNull) ]))
            (λ e, Next tt)
        else Next tt
    | None => Next tt
    end;;
    (* 3. Absolute fallback to fresh state *)
    Return (VObject (DataService.defaultState env))).

Definition saveState (state : value) (ls : gmap string string)
  : gmap string string * completion unit :=
  (* Backup locally *)
  let ls' := setItem (STORAGE_KEY env)
               (DataService.stored_text (JSON_stringify env state)) ls in
  (* Sync to Cloud *)
  (ls',
   call tt
     (if isCloudEnabled then
        try_catch (_ ← await (fetch_post api state); Next tt) (λ e, Next tt)
      else Next tt)).

(** The state with every field that is falsy replaced by the one of the
    fresh state. *)
Definition completed (v : value) : value :=
  VObject
    [ ("users", or_else (field v "users") (VArray (INITIAL_USERS env)));
      ("tasks", or_else (field v "tasks") (VArray (INITIAL_TASKS env)));
      ("records", or_else (field v "records") (VArray []));
      ("messages", or_else (field v "messages") (VArray []));
      ("groups", or_else (field v "groups") (VArray []));
      ("statuses", or_else (field v "statuses") (VArray []));
      ("currentUser", or_else (field v "currentUser") VNull) ].

(** The first row that the endpoint answers with, if [loadState] gets to
    see one. *)
Definition first_row : option row :=
  if isCloudEnabled then
    match fetch_select api with
    | Normal response =>
        if ok response then
          match json response with
          | Normal (Some (rw :: _)) => Some rw
          | _ => None
          end
        else None
    | Throw _ => None
    end
  else None.

End service.
End Legacy.

Module SampleLegacy.

(** No environment variables: the service works on the local cache only. *)
Definition local_only : RestApi :=
  {| SUPABASE_URL := None; SUPABASE_KEY := None;
     fetch_select := Throw (Rejected (VString "network"));
     fetch_post := λ _, Throw (Rejected (VString "network")) |}.

(** A configured endpoint that answers with the rows of [Sample.rows]. *)
Definition answering : RestApi :=
  {| SUPABASE_URL := Some "https://example.supabase.co"; SUPABASE_KEY := Some "key";
     fetch_select := Normal {| ok := true; json := Normal (Some Sample.rows) |};
     fetch_post := λ _, Normal tt |}.

End SampleLegacy.

(** * Properties *)

(** ** Strings *)

Lemma string_app_length (a b : string) :
  String.length (a +:+ b) = (String.length a + String.length b)%nat.
Proof.
  induction a as [|c a IH]; [done|].
  change (S (String.length (a +:+ b)) = S (String.length a + String.length b)).
  by rewrite IH.
Qed.

(** ** [loadState], [saveState] and [signOut] *)
Section storage_facts.
Context (env : Env).

Lemma nonempty_true (s : string) : s ≠ "" → nonempty s = true.
Proof.
  intros Hs. unfold nonempty. destruct (String.eqb_spec s ""); [done|reflexivity].
Qed.

Lemma isCloudEnabled_Some client :
  supabase env = Some client → DataService.isCloudEnabled env = true.
Proof. intros H. unfold DataService.isCloudEnabled. by rewrite H. Qed.

(** A truthy payload of the user's row is returned as it is, whatever the
    local cache holds. *)
Lemma loadState_remote_truthy client ls userId rw err :
  supabase env = Some client →
  userId ≠ "" →
  select_single client userId = Normal (Reply (Some rw) err) →
  truthy (state_json rw) = true →
  DataService.loadState env ls userId = Normal (state_json rw).
Proof.
  intros Hc Hu Hsel Ht. unfold DataService.loadState.
  rewrite (isCloudEnabled_Some _ Hc), (nonempty_true _ Hu). simpl.
  unfold DataService.the_client. rewrite Hc. simpl.
  rewrite Hsel. simpl. rewrite Ht. reflexivity.
Qed.

Lemma typed_payload_truthy v :
  payload_typed v = true → is_nullish v = false → truthy v = true.
Proof. by destruct v. Qed.

(** C1: when the remote is configured, the user id is not empty and the
    select for that id brings back a row whose [state_json] payload is not
    null, [loadState] returns exactly that payload; the result is the same
    for every content of the local cache, and nothing of the payload is
    compared with anything. *)
Theorem loadState_remote_wins client (ls : gmap string string) userId rw err :
  supabase env = Some client →
  userId ≠ "" →
  select_single client userId = Normal (Reply (Some rw) err) →
  payload_typed (state_json rw) = true →
  is_nullish (state_json rw) = false →
  DataService.loadState env ls userId = Normal (state_json rw).
Proof.
  intros Hc Hu Hsel Hty Hnn.
  eapply loadState_remote_truthy; eauto using typed_payload_truthy.
Qed.

(** The first two tiers of [loadState] as functions of their outcome. *)
Lemma loadState_after_remote_miss ls userId :
  remote_miss env userId →
  DataService.loadState env ls userId =
    match ls !! DataService.user_key env userId with
    | Some saved =>
        if nonempty saved then
          match JSON_parse env saved with
          | Normal v => Normal v
          | Throw _ => Normal (VObject (DataService.defaultState env))
          end
        else Normal (VObject (DataService.defaultState env))
    | None => Normal (VObject (DataService.defaultState env))
    end.
Proof.
  intros Hmiss. unfold DataService.loadState, getItem.
  assert ((if DataService.isCloudEnabled env && nonempty userId
           then try_catch
                  (client ← DataService.the_client env;
                   r ← await (select_single client userId);
                   match data r with
                   | Some rw =>
                       if truthy (state_json rw)
                       then Return (state_json rw) else Next tt
                   | None => Next tt
                   end) (λ _, Next tt)
           else Next tt) = (Next tt : stmt value unit)) as ->.
  { destruct Hmiss as [Hc|Hu|client e Hc Hsel|client err Hc Hsel|client rw err Hc Hsel Hf].
    - unfold DataService.isCloudEnabled. by rewrite Hc.
    - subst userId. by rewrite andb_false_r.
    - destruct (DataService.isCloudEnabled env && nonempty userId); [|done].
      unfold DataService.the_client. rewrite Hc. simpl. by rewrite Hsel.
    - destruct (DataService.isCloudEnabled env && nonempty userId); [|done].
      unfold DataService.the_client. rewrite Hc. simpl. by rewrite Hsel.
    - destruct (DataService.isCloudEnabled env && nonempty userId); [|done].
      unfold DataService.the_client. rewrite Hc. simpl. rewrite Hsel. simpl.
      by rewrite Hf. }
  simpl. destruct (ls !! DataService.user_key env userId) as [saved|]; [|done].
  destruct (nonempty saved); [|done].
  by destruct (JSON_parse env saved).
Qed.

(** [loadState] completes normally on every input. *)
Lemma loadState_total ls userId :
  ∃ v, DataService.loadState env ls userId = Normal v.
Proof.
  unfold DataService.loadState.
  destruct (DataService.isCloudEnabled env && nonempty userId).
  - unfold DataService.the_client. destruct (supabase env) as [client|]; simpl.
    + destruct (select_single client userId) as [[[rw|] err]|e]; simpl.
      * destruct (truthy (state_json rw)); simpl; [eauto|].
        unfold getItem. destruct (ls !! _) as [saved|]; simpl; [|eauto].
        destruct (nonempty saved); simpl; [|eauto].
        destruct (JSON_parse env saved); simpl; eauto.
      * unfold getItem. destruct (ls !! _) as [saved|]; simpl; [|eauto].
        destruct (nonempty saved); simpl; [|eauto].
        destruct (JSON_parse env saved); simpl; eauto.
      * unfold getItem. destruct (ls !! _) as [saved|]; simpl; [|eauto].
        destruct (nonempty saved); simpl; [|eauto].
        destruct (JSON_parse env saved); simpl; eauto.
    + unfold getItem. destruct (ls !! _) as [saved|]; simpl; [|eauto].
      destruct (nonempty saved); simpl; [|eauto].
      destruct (JSON_parse env saved); simpl; eauto.
  - simpl. unfold getItem. destruct (ls !! _) as [saved|]; simpl; [|eauto].
    destruct (nonempty saved); simpl; [|eauto].
    destruct (JSON_parse env saved); simpl; eauto.
Qed.

(** C2: [loadState] never throws, and whenever the remote tier yields
    nothing (not configured, failing, or without a payload) and the local
    tier yields nothing (no cached text, or one that does not parse) it
    returns the hand-built default state: the seeded [users] and [tasks],
    empty [records], [messages], [groups] and [statuses], and a null
    [currentUser]. *)
Theorem loadState_never_throws (ls : gmap string string) userId :
  (∃ v, DataService.loadState env ls userId = Normal v) ∧
  (remote_miss env userId → local_miss env ls userId →
   DataService.loadState env ls userId = Normal (VObject (DataService.defaultState env)) ∧
   obj_get (DataService.defaultState env) "users" = VArray (INITIAL_USERS env) ∧
   obj_get (DataService.defaultState env) "tasks" = VArray (INITIAL_TASKS env) ∧
   obj_get (DataService.defaultState env) "records" = VArray [] ∧
   obj_get (DataService.defaultState env) "messages" = VArray [] ∧
   obj_get (DataService.defaultState env) "groups" = VArray [] ∧
   obj_get (DataService.defaultState env) "statuses" = VArray [] ∧
   obj_get (DataService.defaultState env) "currentUser" = VNull).
Proof.
  split; [apply loadState_total|].
  intros Hr Hl. split; [|by repeat split].
  rewrite (loadState_after_remote_miss _ _ Hr).
  destruct Hl as [Hk|Hk|saved e Hk Hp]; rewrite Hk; [done|done|].
  rewrite Hp. by destruct (nonempty saved).
Qed.

(** The key of a user is never the global key. *)
Lemma user_key_not_global userId :
  DataService.user_key env userId ≠ STORAGE_KEY env.
Proof.
  intros Heq. apply (f_equal String.length) in Heq.
  unfold DataService.user_key in Heq. rewrite !string_app_length in Heq.
  simpl in Heq. lia.
Qed.

Lemma saveState_storage userId state (ls : gmap string string) :
  userId ≠ "" →
  (DataService.saveState env userId state ls).1 =
    <[DataService.user_key env userId :=
        DataService.stored_text (JSON_stringify env state)]> ls.
Proof.
  intros Hu. unfold DataService.saveState. by rewrite (nonempty_true _ Hu).
Qed.



Lemma signOut_storage (ls : gmap string string) :
  (DataService.signOut env ls).1 = ls ∨
  ((DataService.signOut env ls).1 = delete (STORAGE_KEY env) ls ∧
   (DataService.signOut env ls).2 = Normal tt).
Proof.
  unfold DataService.signOut, removeItem.
  destruct (supabase env) as [client|]; [|by right].
  destruct (auth_signOut client); [by right|by left].
Qed.

Lemma signOut_other_keys (ls : gmap string string) k :
  k ≠ STORAGE_KEY env → (DataService.signOut env ls).1 !! k = ls !! k.
Proof.
  intros Hk. destruct (signOut_storage ls) as [->|[-> _]]; [done|].
  by rewrite lookup_delete_ne.
Qed.

(** C10: [signOut] removes nothing but the global key [STORAGE_KEY]: every
    other key keeps its text, the key of a user is never the global key,
    and so what [saveState] cached for a user is still there after
    [signOut]; the global key is gone whenever [signOut] completes. *)
Theorem signOut_keeps_user_states (ls : gmap string string) :
  (∀ k, k ≠ STORAGE_KEY env → (DataService.signOut env ls).1 !! k = ls !! k) ∧
  (∀ userId,
     DataService.user_key env userId ≠ STORAGE_KEY env ∧
     (DataService.signOut env ls).1 !! DataService.user_key env userId
       = ls !! DataService.user_key env userId) ∧
  (∀ userId state, userId ≠ "" →
     (DataService.signOut env (DataService.saveState env userId state ls).1).1
       !! DataService.user_key env userId
       = Some (DataService.stored_text (JSON_stringify env state))) ∧
  ((DataService.signOut env ls).2 = Normal tt →
     (DataService.signOut env ls).1 !! STORAGE_KEY env = None).
Proof.
  split; [intros k; apply signOut_other_keys|].
  split.
  { intros userId. split; [apply user_key_not_global|].
    apply signOut_other_keys, user_key_not_global. }
  split.
  { intros userId state Hu.
    rewrite signOut_other_keys by apply user_key_not_global.
    rewrite (saveState_storage _ _ _ Hu). apply lookup_insert_eq. }
  destruct (signOut_storage ls) as [Hsame|[-> _]].
  - unfold DataService.signOut in *. unfold removeItem in *.
    destruct (supabase env) as [client|]; simpl.
    + destruct (auth_signOut client); simpl; [|done].
      intros _. apply lookup_delete_eq.
    + intros _. apply lookup_delete_eq.
  - intros _. apply lookup_delete_eq.
Qed.

End storage_facts.

(** The scenario of the specification: the remote holds a row for "u1". *)
Lemma loadState_remote_wins_witness :
  DataService.loadState Sample.cloud {[ "b_progress_state_u1" := "{}" ]} "u1"
    = Normal Sample.state_u1.
Proof.
  apply (loadState_remote_wins Sample.cloud Sample.answering
           {[ "b_progress_state_u1" := "{}" ]} "u1" (Row Sample.state_u1) None).
  - reflexivity.
  - discriminate.
  - reflexivity.
  - reflexivity.
  - reflexivity.
Defined.

(** The scenario of the specification: remote disabled, local cache empty;
    and an unreachable remote with a corrupted cache. *)
Lemma loadState_never_throws_witness :
  DataService.loadState Sample.offline ∅ "u1"
    = Normal (VObject (DataService.defaultState Sample.offline)) ∧
  DataService.loadState Sample.failing {[ "b_progress_state_u1" := "{oops" ]} "u1"
    = Normal (VObject (DataService.defaultState Sample.failing)).
Proof.
  split.
  - apply (loadState_never_throws Sample.offline ∅ "u1").
    + by apply remote_not_configured.
    + by apply local_absent.
  - apply (loadState_never_throws Sample.failing
             {[ "b_progress_state_u1" := "{oops" ]} "u1").
    + by apply (remote_failure Sample.failing "u1" Sample.unreachable
                  (Rejected (VString "network"))).
    + by apply (local_parse_failure Sample.failing _ "u1" "{oops" SyntaxError).
Defined.



Lemma signOut_keeps_user_states_witness :
  (DataService.signOut Sample.cloud
     (DataService.saveState Sample.cloud "u1" Sample.state_u1
        {[ "b_progress_state" := "{}" ]}).1).1
    !! DataService.user_key Sample.cloud "u1"
    = Some (DataService.stored_text (JSON_stringify Sample.cloud Sample.state_u1)).
Proof.
  destruct (signOut_keeps_user_states Sample.cloud {[ "b_progress_state" := "{}" ]})
    as (_ & _ & Hsaved & _).
  apply Hsaved. discriminate.
Defined.

(** ** The reducers of the application shell *)
Section reducer_facts.
Context {Task Group StatusUpdate Attachment : Type}.
Abbreviation State := (@App.AppState Task Group StatusUpdate Attachment).

Local Open Scope nat_scope.

(** [findIndex] answers -1 when no element passes, and otherwise the index
    of the first element that does. *)
Lemma findIndex_cases {A} (p : A → bool) (l : list A) :
  (App.findIndex p l = (-1)%Z ∧ Forall (λ x, p x = false) l) ∨
  (∃ i x, App.findIndex p l = Z.of_nat i ∧ l !! i = Some x ∧ p x = true ∧
          ∀ j y, j < i → l !! j = Some y → p y = false).
Proof.
  induction l as [|a l IH]; simpl.
  - left. by split.
  - destruct (p a) eqn:Hpa.
    + right. exists 0, a. repeat split; [done|]. intros j y Hj. lia.
    + destruct IH as [[-> Hall]|(i & x & -> & Hi & Hx & Hbefore)].
      * left. split; [done|]. by constructor.
      * right. exists (S i), x.
        replace (Z.of_nat i >? -1)%Z with true by (symmetry; apply Z.gtb_lt; lia).
        repeat split; [lia|done|done|].
        intros [|j] y Hj Hy; simpl in Hy; [by simplify_eq|].
        apply (Hbefore j); [lia|done].
Qed.

Lemma alter_as_insert {A} (f : A → A) (l : list A) i x :
  l !! i = Some x → alter f i l = <[i := f x]> l.
Proof.
  revert i. induction l as [|a l IH]; intros [|i] Hi; simplify_eq/=; [done|].
  f_equal. by apply IH.
Qed.

Lemma same_user_and_date_key (u : App.RecordUpdate) (r : App.ProgressRecord) :
  App.same_user_and_date u r = true ↔
  App.record_key r = (App.upd_userId u, App.upd_date u).
Proof.
  unfold App.same_user_and_date, App.record_key.
  rewrite andb_true_iff, !bool_decide_eq_true. split.
  - intros [-> ->]. done.
  - intros [= -> ->]. done.
Qed.

Lemma patch_keeps_key (u : App.RecordUpdate) (r : App.ProgressRecord) :
  App.record_key r = (App.upd_userId u, App.upd_date u) →
  App.record_key (App.patch r u) = App.record_key r.
Proof.
  unfold App.record_key, App.patch. simpl. intros [= Hu Hd].
  rewrite Hu, Hd. by destruct (App.upd_userId u), (App.upd_date u).
Qed.

(** The index that [findIndex] returns lies inside the array. *)
Lemma findIndex_in_range {A} (p : A → bool) (l : list A) :
  (App.findIndex p l >? -1)%Z = true →
  ∃ x, l !! Z.to_nat (App.findIndex p l) = Some x ∧ p x = true.
Proof.
  destruct (findIndex_cases p l) as [[-> _]|(i & x & -> & Hi & Hx & _)]; [done|].
  intros _. exists x. by rewrite Nat2Z.id.
Qed.

(** C6: on a state whose records hold at most one entry per pair of
    [userId] and [date], [handleUpdateRecord] yields a state with the same
    property; an update whose pair is that of an existing record replaces
    that record where it stands, so the number of records is unchanged and
    nothing is appended, and an update with a new pair appends exactly one
    record; no other field of the state changes. *)
Theorem handleUpdateRecord_one_record_per_day
    random_id (u : App.RecordUpdate) (st : State) :
  NoDup (App.record_key <$> App.records st) →
  ∃ st', App.handleUpdateRecord random_id u (Some st) = Some st' ∧
    NoDup (App.record_key <$> App.records st') ∧
    (∀ i r, App.records st !! i = Some r →
            App.record_key r = (App.upd_userId u, App.upd_date u) →
            App.records st' = <[i := App.patch r u]> (App.records st) ∧
            length (App.records st') = length (App.records st) ∧
            App.record_key (App.patch r u) = App.record_key r) ∧
    ((App.upd_userId u, App.upd_date u) ∉ App.record_key <$> App.records st →
       App.records st' = App.records st ++ [App.newRecord random_id u] ∧
       App.record_key (App.newRecord random_id u) = (App.upd_userId u, App.upd_date u)) ∧
    App.users st' = App.users st ∧ App.tasks st' = App.tasks st ∧
    App.messages st' = App.messages st ∧ App.groups st' = App.groups st ∧
    App.statuses st' = App.statuses st ∧ App.currentUser st' = App.currentUser st.
Proof.
  intros Hnodup. eexists. split; [reflexivity|]. simpl.
  split; [|split; [|split; [|by repeat split]]].
  - destruct (findIndex_cases (App.same_user_and_date u) (App.records st))
      as [[-> Hall]|(i & x & -> & Hi & Hx & _)].
    + simpl. rewrite fmap_app. apply NoDup_app. split; [done|]. split.
      * intros k Hk Hk'. apply list_elem_of_singleton in Hk'. subst k.
        apply list_elem_of_fmap in Hk as (r & Hr & Hin).
        rewrite Forall_forall in Hall. specialize (Hall r Hin).
        assert (App.same_user_and_date u r = true) as Ht.
        { apply same_user_and_date_key. by rewrite <- Hr. }
        congruence.
      * apply NoDup_singleton.
    + replace (Z.of_nat i >? -1)%Z with true by (symmetry; apply Z.gtb_lt; lia).
      rewrite Nat2Z.id, (alter_as_insert _ _ _ _ Hi), list_fmap_insert.
      rewrite patch_keeps_key by (by apply same_user_and_date_key).
      rewrite list_insert_id; [done|]. by rewrite list_lookup_fmap, Hi.
  - intros i r Hi Hkey.
    destruct (findIndex_cases (App.same_user_and_date u) (App.records st))
      as [[_ Hall]|(i' & x & -> & Hi' & Hx & _)].
    + rewrite Forall_forall in Hall.
      assert (App.same_user_and_date u r = false) as Hf.
      { apply Hall. by eapply list_elem_of_lookup_2. }
      apply same_user_and_date_key in Hkey. congruence.
    + assert (i' = i) as ->.
      { apply same_user_and_date_key in Hx.
        apply (NoDup_lookup _ i' i (App.record_key r) Hnodup);
          rewrite list_lookup_fmap; [rewrite Hi'; simpl; congruence|by rewrite Hi]. }
      simplify_eq.
      replace (Z.of_nat i >? -1)%Z with true by (symmetry; apply Z.gtb_lt; lia).
      rewrite Nat2Z.id, (alter_as_insert _ _ _ _ Hi).
      split; [done|]. split; [by rewrite length_insert|by apply patch_keeps_key].
  - intros Hnew.
    destruct (findIndex_cases (App.same_user_and_date u) (App.records st))
      as [[-> _]|(i' & x & _ & Hi' & Hx & _)]; [done|].
    exfalso. apply Hnew. apply list_elem_of_fmap. exists x.
    split; [symmetry; by apply same_user_and_date_key|by eapply list_elem_of_lookup_2].
Qed.

Lemma trim_empty_nonempty (s : string) : nonempty (App.trim s) = false ↔ App.trim s = "".
Proof.
  unfold nonempty. destruct (String.eqb_spec (App.trim s) ""); simpl; split; congruence.
Qed.

(** C9: [handleSendMessage] returns the state unchanged when nobody is
    logged in, or when the content trims to the empty string and there is no
    attachment; otherwise it appends exactly one message, from the current
    user, and leaves [users], [tasks], [records], [groups], [statuses] and
    [currentUser] as they were. *)
Theorem handleSendMessage_frame
    random_id now receiver text (file : option Attachment) (st : State) :
  ((App.currentUser st = None ∨ (App.trim text = "" ∧ file = None)) →
     App.handleSendMessage random_id now receiver text file (Some st) = Some st) ∧
  (∀ user, App.currentUser st = Some user →
     ¬ (App.trim text = "" ∧ file = None) →
     ∃ st' m,
       App.handleSendMessage random_id now receiver text file (Some st) = Some st' ∧
       App.messages st' = App.messages st ++ [m] ∧
       App.senderId m = App.user_id user ∧ App.receiverId m = receiver ∧
       App.content m = text ∧ App.attachment m = file ∧
       App.users st' = App.users st ∧ App.tasks st' = App.tasks st ∧
       App.records st' = App.records st ∧ App.groups st' = App.groups st ∧
       App.statuses st' = App.statuses st ∧
       App.currentUser st' = App.currentUser st).
Proof.
  unfold App.handleSendMessage. split.
  - intros [Hnone|[Htrim ->]].
    + by rewrite Hnone.
    + destruct (App.currentUser st); [|done].
      apply trim_empty_nonempty in Htrim. by rewrite Htrim.
  - intros user Huser Hsend. rewrite Huser.
    destruct (negb (nonempty (App.trim text)) && negb (bool_decide (is_Some file)))
      eqn:Hguard.
    + exfalso. apply Hsend. apply andb_true_iff in Hguard as [Ht Hf].
      apply negb_true_iff in Ht, Hf. split; [by apply trim_empty_nonempty|].
      apply bool_decide_eq_false in Hf. destruct file; [|done].
      exfalso. apply Hf. by eexists.
    + eexists _, _. split; [reflexivity|]. simpl. by repeat split.
Qed.

End reducer_facts.

Lemma handleUpdateRecord_one_record_per_day_witness :
  ∃ st', App.handleUpdateRecord "r2" (SampleApp.update "2024-01-01" 45)
           (Some SampleApp.logged_in) = Some st' ∧
         NoDup (App.record_key <$> App.records st') ∧
         length (App.records st') = 1%nat.
Proof.
  destruct (@handleUpdateRecord_one_record_per_day string string string string
              "r2" (SampleApp.update "2024-01-01" 45) SampleApp.logged_in)
    as (st' & Hst & Hnodup & Hsame & _).
  - apply NoDup_singleton.
  - exists st'. split; [done|]. split; [done|].
    by destruct (Hsame 0%nat SampleApp.monday eq_refl eq_refl) as (_ & -> & _).
Defined.

Lemma handleSendMessage_frame_witness :
  App.handleSendMessage "m1" "2024-01-02T10:00:00.000Z" "admin-1" "   " None
    (Some SampleApp.logged_in) = Some SampleApp.logged_in ∧
  ∃ st' m, App.handleSendMessage "m1" "2024-01-02T10:00:00.000Z" "admin-1" "hello" None
             (Some SampleApp.logged_in) = Some st' ∧
           App.messages st' = App.messages SampleApp.logged_in ++ [m].
Proof.
  split.
  - apply (handleSendMessage_frame "m1" "2024-01-02T10:00:00.000Z" "admin-1" "   " None
             SampleApp.logged_in).
    right. split; reflexivity.
  - destruct (handleSendMessage_frame "m1" "2024-01-02T10:00:00.000Z" "admin-1" "hello"
                None SampleApp.logged_in) as [_ Hsend].
    destruct (Hsend SampleApp.ann eq_refl) as (st' & m & Hst & Hm & _).
    + intros [Ht _]. discriminate Ht.
    + by exists st', m.
Defined.

(** ** [Map] with primitive keys *)
Section map_facts.

Lemma same_value_zero_true a b : same_value_zero a b = true → a = b.
Proof.
  destruct a, b; simpl; try done.
  - intros H. apply Bool.eqb_prop in H. by subst.
  - intros H. apply bool_decide_eq_true in H. by subst.
  - intros H. apply String.eqb_eq in H. by subst.
Qed.

Lemma same_value_zero_refl a : is_primitive a = true → same_value_zero a a = true.
Proof.
  destruct a; simpl; try done; intros _.
  - apply Bool.eqb_reflx.
  - by apply bool_decide_eq_true.
  - apply String.eqb_refl.
Qed.

Lemma Map_set_elem m k v p : p ∈ Map_set m k v → p ∈ m ∨ p = (k, v).
Proof.
  induction m as [|[k' v'] m IH]; simpl.
  - intros H. apply list_elem_of_singleton in H. by right.
  - destruct (same_value_zero k' k) eqn:Hk.
    + apply same_value_zero_true in Hk. subst k'.
      intros [->|H]%elem_of_cons; [by right|]. left. by right.
    + intros [->|H]%elem_of_cons; [left; by left|].
      destruct (IH H) as [?|?]; [left; by right|by right].
Qed.

Lemma Map_set_new m k v : (k, v) ∈ Map_set m k v.
Proof.
  induction m as [|[k' v'] m IH]; simpl; [by left|].
  destruct (same_value_zero k' k) eqn:Hk.
  - apply same_value_zero_true in Hk. subst k'. by left.
  - by right.
Qed.

Lemma Map_set_other m k v k' v' :
  (k', v') ∈ m → k' ≠ k → (k', v') ∈ Map_set m k v.
Proof.
  intros Hin Hne. induction m as [|[k0 v0] m IH]; simpl; [by inversion Hin|].
  apply elem_of_cons in Hin as [Heq|Hin].
  - injection Heq as <- <-. destruct (same_value_zero k' k) eqn:Hk.
    + apply same_value_zero_true in Hk. congruence.
    + by left.
  - destruct (same_value_zero k0 k); right; auto.
Qed.

Lemma Map_set_keys_NoDup m k v :
  is_primitive k = true → NoDup m.*1 → NoDup (Map_set m k v).*1.
Proof.
  intros Hk. induction m as [|[k' v'] m IH]; simpl; intros Hnd.
  - apply NoDup_singleton.
  - apply NoDup_cons in Hnd as [Hnotin Hnd].
    destruct (same_value_zero k' k) eqn:Hkk; simpl.
    + by apply NoDup_cons.
    + apply NoDup_cons. split; [|by apply IH].
      intros Hin. apply list_elem_of_fmap in Hin as ([k0 v0] & -> & Hin).
      apply Map_set_elem in Hin as [Hin|Heq].
      * apply Hnotin. apply list_elem_of_fmap. by exists (k0, v0).
      * simplify_eq/=. by rewrite same_value_zero_refl in Hkk.
Qed.

Lemma Map_fold_NoDup m entries :
  Forall (λ kv, is_primitive kv.1 = true) entries →
  NoDup m.*1 → NoDup (Map_fold m entries).*1.
Proof.
  intros Hprim. revert m. induction Hprim as [|[k v] entries Hk _ IH]; intros m Hnd.
  - done.
  - simpl. apply IH. by apply Map_set_keys_NoDup.
Qed.

Lemma Map_fold_elem m entries p :
  p ∈ Map_fold m entries → p ∈ m ∨ p ∈ entries.
Proof.
  revert m. induction entries as [|[k v] entries IH]; intros m; simpl.
  - by left.
  - intros H. destruct (IH _ H) as [Hin|Hin].
    + apply Map_set_elem in Hin as [?| ->]; [by left|right; by left].
    + right. by right.
Qed.

Lemma Map_fold_keeps m entries k v :
  (k, v) ∈ m → k ∉ entries.*1 → (k, v) ∈ Map_fold m entries.
Proof.
  revert m. induction entries as [|[k' v'] entries IH]; intros m Hin Hnot; simpl.
  - done.
  - apply IH.
    + apply Map_set_other; [done|]. intros ->. apply Hnot. by left.
    + intros H. apply Hnot. by right.
Qed.

Lemma Map_fold_last m before k v after :
  k ∉ after.*1 → (k, v) ∈ Map_fold m (before ++ (k, v) :: after).
Proof.
  intros Hnot. unfold Map_fold. rewrite fold_left_app. simpl.
  apply Map_fold_keeps; [apply Map_set_new|done].
Qed.

Lemma dedupe_subset gs g : g ∈ dedupe gs → g ∈ gs.
Proof.
  unfold dedupe, Map_values, Map_new. intros Hin.
  apply list_elem_of_fmap in Hin as ([k v] & -> & Hin).
  apply (Map_fold_elem []) in Hin as [Hin|Hin]; [by inversion Hin|].
  apply list_elem_of_fmap in Hin as (g & [= -> ->] & Hg). done.
Qed.

Lemma dedupe_NoDup gs :
  Forall (λ g, group_typed g = true) gs → NoDup (group_id <$> dedupe gs).
Proof.
  intros Hty. unfold dedupe, Map_values, Map_new.
  set (entries := (λ g, (group_id g, g)) <$> gs).
  assert (Forall (λ kv, is_primitive kv.1 = true) entries) as Hprim.
  { apply Forall_fmap. eapply Forall_impl; [exact Hty|].
    intros g Hg. simpl. unfold group_typed in Hg. by apply andb_true_iff in Hg as [_ ?]. }
  pose proof (Map_fold_NoDup [] entries Hprim (NoDup_nil_2)) as Hnd.
  assert (Forall (λ kv, kv.1 = group_id kv.2) (Map_fold [] entries)) as Hshape.
  { apply Forall_forall. intros p Hp.
    apply Map_fold_elem in Hp as [Hp|Hp]; [by inversion Hp|].
    apply list_elem_of_fmap in Hp as (g & -> & _). done. }
  fold (Map_fold [] entries). revert Hnd Hshape.
  generalize (Map_fold [] entries). intros m Hnd Hshape.
  replace (group_id <$> m.*2) with m.*1; [done|].
  induction Hshape as [|[k v] m Hkv _ IH]; [done|].
  simpl in *. rewrite Hkv. f_equal. apply IH. by apply NoDup_cons in Hnd as [_ ?].
Qed.

Lemma dedupe_last before g after :
  group_id g ∉ group_id <$> after → g ∈ dedupe (before ++ g :: after).
Proof.
  intros Hnot. unfold dedupe, Map_values, Map_new.
  rewrite fmap_app, fmap_cons. apply list_elem_of_fmap.
  exists (group_id g, g). split; [done|].
  apply (Map_fold_last []). by rewrite <- list_fmap_compose.
Qed.

End map_facts.

(** ** [loadMasterState] *)
Section aggregator_facts.
Context (env : Env).

Lemma iterate_or_else v :
  array_typed v = true → iterate (or_else v (VArray [])) = Normal (elements v).
Proof. by destruct v. Qed.

Lemma array_map_entries gs :
  Forall (λ g, group_typed g = true) gs →
  array_map (λ g, id ← member g "id"; Normal (id, g)) gs
    = Normal ((λ g, (group_id g, g)) <$> gs).
Proof.
  induction 1 as [|g gs Hg _ IH]; simpl; [done|].
  rewrite IH. destruct g; try done.
Qed.

(** A row without a truthy payload leaves the accumulator as it is. *)
Lemma merge_row_skips acc rw :
  truthy (state_json rw) = false → DataService.merge_row acc rw = Normal acc.
Proof. intros H. unfold DataService.merge_row. by rewrite H. Qed.

Lemma group_typed_elements v :
  forallb group_typed (elements v) = true →
  Forall (λ g, group_typed g = true) (elements v).
Proof. intros H. apply Forall_forall. intros g Hg. rewrite forallb_forall in H. apply H. by apply list_elem_of_In. Qed.

Lemma merge_row_typed us ts rs ms gs ss rw :
  state_typed (state_json rw) = true →
  Forall (λ g, group_typed g = true) gs →
  DataService.merge_row (accumulator us ts rs ms gs ss) rw
    = Normal (accumulator (us ++ current_user_of rw) ts (rs ++ records_of rw)
                (ms ++ messages_of rw) (dedupe (gs ++ groups_of rw))
                (ss ++ statuses_of rw)).
Proof.
  intros Hty Hgs. unfold state_typed in Hty.
  repeat (apply andb_true_iff in Hty as [Hty ?]).
  unfold DataService.merge_row, current_user_of, records_of, messages_of,
    statuses_of, groups_of.
  destruct (state_json rw) as [| | | | | |o]; try done. simpl in *.
  rewrite !iterate_or_else by done. simpl.
  rewrite array_map_entries.
  - simpl. unfold dedupe.
    assert (truthy (obj_get o "currentUser") = negb (is_nullish (obj_get o "currentUser"))) as ->.
    { by destruct (obj_get o "currentUser"). }
    by destruct (is_nullish (obj_get o "currentUser")).
  - apply Forall_app. split; [done|]. by apply group_typed_elements.
Qed.

Lemma last_per_id_step all gs new :
  Forall (λ g, group_typed g = true) (all ++ new) →
  last_per_id all gs → last_per_id (all ++ new) (dedupe (gs ++ new)).
Proof.
  intros Hty (Hnd & Hsub & Hlast).
  apply Forall_app in Hty as [Hall Hnew].
  assert (Forall (λ g, group_typed g = true) gs) as Hgs.
  { apply Forall_forall. intros g Hg. rewrite Forall_forall in Hall. auto. }
  split; [|split].
  - apply dedupe_NoDup. by apply Forall_app.
  - intros g Hg. apply dedupe_subset in Hg.
    apply elem_of_app in Hg as [Hg|Hg]; apply elem_of_app; auto.
  - intros before g after Heq Hnot.
    apply app_eq_app in Heq as [l [[-> Heq]|[-> Heq]]].
    + (* the occurrence lies in [new] *)
      destruct l as [|x l]; simpl in Heq.
      * subst new. rewrite app_nil_r in *.
        by apply dedupe_last.
      * injection Heq as -> ->.
        rewrite fmap_app in Hnot.
        assert (x ∈ gs) as Hg.
        { apply (Hlast before x l); [done|]. intros H. apply Hnot, elem_of_app. by left. }
        apply list_elem_of_split in Hg as (p & q & ->).
        rewrite <- app_assoc. simpl. apply dedupe_last.
        rewrite fmap_app. intros [Hq|Hn]%elem_of_app.
        -- rewrite fmap_app, fmap_cons in Hnd. apply NoDup_app in Hnd as (_ & _ & Hnd).
           apply NoDup_cons in Hnd as [Hnd _]. done.
        -- apply Hnot, elem_of_app. by right.
    + subst new. rewrite app_assoc. by apply dedupe_last.
Qed.

(** The fold over rows of the declared type, in closed form. *)
Lemma reduce_typed ts rows :
  Forall (λ rw, row_typed rw = true) rows →
  ∀ us rs ms gs ss all,
    Forall (λ g, group_typed g = true) all →
    last_per_id all gs →
    ∃ gs',
      reduce DataService.merge_row rows (accumulator us ts rs ms gs ss)
        = Normal (accumulator (us ++ flat_map current_user_of rows) ts
                    (rs ++ flat_map records_of rows)
                    (ms ++ flat_map messages_of rows) gs'
                    (ss ++ flat_map statuses_of rows)) ∧
      last_per_id (all ++ flat_map groups_of rows) gs'.
Proof.
  induction 1 as [|rw rows Hrw _ IH]; intros us rs ms gs ss all Hall Hinv; simpl.
  - exists gs. by rewrite !app_nil_r.
  - unfold row_typed in Hrw. destruct (is_nullish (state_json rw)) eqn:Hnull.
    + rewrite merge_row_skips by (by destruct (state_json rw)). simpl.
      assert (current_user_of rw = [] ∧ records_of rw = [] ∧ messages_of rw = []
              ∧ statuses_of rw = [] ∧ groups_of rw = []) as (-> & -> & -> & -> & ->).
      { unfold current_user_of, records_of, messages_of, statuses_of, groups_of.
        by destruct (state_json rw). }
      simpl. by apply IH.
    + simpl in Hrw.
      assert (Forall (λ g, group_typed g = true) gs) as Hgs.
      { destruct Hinv as (_ & Hsub & _). apply Forall_forall. intros g Hg.
        rewrite Forall_forall in Hall. auto. }
      assert (Forall (λ g, group_typed g = true) (groups_of rw)) as Hnew.
      { unfold state_typed in Hrw. apply andb_true_iff in Hrw as [_ Hrw].
        by apply group_typed_elements. }
      rewrite merge_row_typed by done. simpl.
      destruct (IH (us ++ current_user_of rw) (rs ++ records_of rw)
                  (ms ++ messages_of rw) (dedupe (gs ++ groups_of rw))
                  (ss ++ statuses_of rw) (all ++ groups_of rw)) as (gs' & Hred & Hinv').
      * by apply Forall_app.
      * apply last_per_id_step; [by apply Forall_app|done].
      * exists gs'. rewrite !app_assoc. by rewrite Hred.
Qed.

Lemma last_per_id_nil : last_per_id [] [].
Proof.
  split; [apply NoDup_nil_2|]. split; [done|].
  intros before g after H. by destruct before.
Qed.

Lemma loadMasterState_reduce client rows :
  supabase env = Some client →
  select_all client = Normal (Reply (Some rows) None) →
  DataService.loadMasterState env =
    match reduce DataService.merge_row rows (DataService.defaultState env) with
    | Normal merged => Normal (VObject merged)
    | Throw _ => Normal (VObject (DataService.defaultState env))
    end.
Proof.
  intros Hc Hsel. unfold DataService.loadMasterState, DataService.isCloudEnabled,
    DataService.the_client. rewrite Hc. simpl. rewrite Hsel. simpl.
  by destruct (reduce _ _ _).
Qed.

Lemma loadMasterState_typed client rows :
  supabase env = Some client →
  select_all client = Normal (Reply (Some rows) None) →
  Forall (λ rw, row_typed rw = true) rows →
  ∃ gs,
    DataService.loadMasterState env
      = Normal (VObject (accumulator (INITIAL_USERS env ++ flat_map current_user_of rows)
                           (INITIAL_TASKS env) (flat_map records_of rows)
                           (flat_map messages_of rows) gs
                           (flat_map statuses_of rows))) ∧
    last_per_id (flat_map groups_of rows) gs.
Proof.
  intros Hc Hsel Hty. rewrite (loadMasterState_reduce _ _ Hc Hsel).
  destruct (reduce_typed (INITIAL_TASKS env) rows Hty (INITIAL_USERS env) [] [] [] [] [])
    as (gs & Hred & Hinv); [done|apply last_per_id_nil|].
  exists gs. unfold DataService.defaultState. fold (accumulator (INITIAL_USERS env) (INITIAL_TASKS env) [] [] [] []).
  rewrite Hred. done.
Qed.

Lemma NoDup_fmap_unique {A B} (f : A → B) (l : list A) x y :
  NoDup (f <$> l) → x ∈ l → y ∈ l → f x = f y → x = y.
Proof.
  intros Hnd Hx Hy Hf.
  apply list_elem_of_lookup in Hx as [i Hi]. apply list_elem_of_lookup in Hy as [j Hj].
  assert (i = j) as ->; [|congruence].
  apply (NoDup_lookup _ i j (f x) Hnd); rewrite list_lookup_fmap.
  - by rewrite Hi.
  - rewrite Hj. simpl. congruence.
Qed.

(** C4: the groups of the result of [loadMasterState] hold at most one
    group per id; every one of them comes from a row, and for every group of
    a row that no later group (in the order of the rows, and inside a row in
    the order of its array) shares the id with, it is that group, the later
    version, that the result holds.  The rows are of the declared type:
    their payload is null, absent or an [AppState]. *)
Theorem loadMasterState_groups_by_id client rows :
  supabase env = Some client →
  select_all client = Normal (Reply (Some rows) None) →
  Forall (λ rw, row_typed rw = true) rows →
  ∃ merged gs,
    DataService.loadMasterState env = Normal (VObject merged) ∧
    obj_get merged "groups" = VArray gs ∧
    NoDup (group_id <$> gs) ∧
    (∀ g g', g ∈ gs → g' ∈ gs → group_id g = group_id g' → g = g') ∧
    (∀ g, g ∈ gs → g ∈ flat_map groups_of rows) ∧
    (∀ before g after,
       flat_map groups_of rows = before ++ g :: after →
       group_id g ∉ group_id <$> after → g ∈ gs).
Proof.
  intros Hc Hsel Hty.
  destruct (loadMasterState_typed _ _ Hc Hsel Hty) as (gs & -> & Hnd & Hsub & Hlast).
  eexists _, gs. split; [reflexivity|]. split; [reflexivity|].
  split; [done|]. split; [|by split].
  intros g g'. by apply NoDup_fmap_unique.
Qed.

(** C5: the [users] of the result of [loadMasterState] are the seeded users
    followed, row by row, by the current user embedded in the row when it is
    not null, and by nothing else of the row; its [tasks] are the seeded
    tasks, whatever the rows hold.  The rows are of the declared type. *)
Theorem loadMasterState_users_and_tasks client rows :
  supabase env = Some client →
  select_all client = Normal (Reply (Some rows) None) →
  Forall (λ rw, row_typed rw = true) rows →
  ∃ merged,
    DataService.loadMasterState env = Normal (VObject merged) ∧
    obj_get merged "users"
      = VArray (INITIAL_USERS env ++ flat_map current_user_of rows) ∧
    obj_get merged "tasks" = VArray (INITIAL_TASKS env).
Proof.
  intros Hc Hsel Hty.
  destruct (loadMasterState_typed _ _ Hc Hsel Hty) as (gs & -> & _).
  eexists. split; [reflexivity|]. by split.
Qed.

Lemma reduce_app {A B} (f : B → A → completion B) l1 l2 init :
  reduce f (l1 ++ l2) init = (acc ← reduce f l1 init; reduce f l2 acc).
Proof.
  revert init. induction l1 as [|x l1 IH]; intros init; simpl; [done|].
  destruct (f init x); simpl; [apply IH|done].
Qed.

Lemma loadMasterState_default_cases :
  (supabase env = None →
     DataService.loadMasterState env = Normal (VObject (DataService.defaultState env))) ∧
  (∀ client e, supabase env = Some client → select_all client = Throw e →
     DataService.loadMasterState env = Normal (VObject (DataService.defaultState env))) ∧
  (∀ client d err, supabase env = Some client →
     select_all client = Normal (Reply d (Some err)) →
     DataService.loadMasterState env = Normal (VObject (DataService.defaultState env))) ∧
  (∀ client err, supabase env = Some client →
     select_all client = Normal (Reply None err) →
     DataService.loadMasterState env = Normal (VObject (DataService.defaultState env))).
Proof.
  unfold DataService.loadMasterState, DataService.isCloudEnabled, DataService.the_client.
  repeat split.
  - by intros ->.
  - intros client e -> Hsel. simpl. by rewrite Hsel.
  - intros client d err -> Hsel. simpl. by rewrite Hsel.
  - intros client err -> Hsel. simpl. rewrite Hsel. by destruct err.
Qed.

(** C7: a row whose payload is null or absent is skipped: it leaves every
    field of the accumulator as it is, and the result of [loadMasterState]
    is the one for the rows without it.  When there is no client, when the
    select throws, reports an error, brings back no data or no row, and
    also when a row makes the merge throw, the result is the default state
    and nothing of what was merged so far. *)
Theorem loadMasterState_skips_and_defaults :
  (∀ acc rw, is_nullish (state_json rw) = true →
     DataService.merge_row acc rw = Normal acc) ∧
  (∀ client client' before rw after,
     is_nullish (state_json rw) = true →
     select_all client = Normal (Reply (Some (before ++ rw :: after)) None) →
     select_all client' = Normal (Reply (Some (before ++ after)) None) →
     DataService.loadMasterState (with_client env (Some client))
       = DataService.loadMasterState (with_client env (Some client'))) ∧
  (supabase env = None →
     DataService.loadMasterState env = Normal (VObject (DataService.defaultState env))) ∧
  (∀ client e, supabase env = Some client → select_all client = Throw e →
     DataService.loadMasterState env = Normal (VObject (DataService.defaultState env))) ∧
  (∀ client d err, supabase env = Some client →
     select_all client = Normal (Reply d (Some err)) →
     DataService.loadMasterState env = Normal (VObject (DataService.defaultState env))) ∧
  (∀ client err, supabase env = Some client →
     select_all client = Normal (Reply None err) →
     DataService.loadMasterState env = Normal (VObject (DataService.defaultState env))) ∧
  (∀ client, supabase env = Some client →
     select_all client = Normal (Reply (Some []) None) →
     DataService.loadMasterState env = Normal (VObject (DataService.defaultState env))) ∧
  (∀ client rows e, supabase env = Some client →
     select_all client = Normal (Reply (Some rows) None) →
     reduce DataService.merge_row rows (DataService.defaultState env) = Throw e →
     DataService.loadMasterState env = Normal (VObject (DataService.defaultState env))).
Proof.
  split.
  { intros acc rw Hnull. apply merge_row_skips. by destruct (state_json rw). }
  split.
  { intros client client' before rw after Hnull Hsel Hsel'.
    unfold DataService.loadMasterState, DataService.isCloudEnabled,
      DataService.the_client. simpl. rewrite Hsel, Hsel'. simpl.
    rewrite !reduce_app. simpl.
    destruct (reduce DataService.merge_row before _) as [acc|e]; simpl; [|done].
    by rewrite merge_row_skips by (by destruct (state_json rw)). }
  destruct loadMasterState_default_cases as (H1 & H2 & H3 & H4).
  repeat split; [done..| |].
  - intros client Hc Hsel. by rewrite (loadMasterState_reduce _ _ Hc Hsel).
  - intros client rows e Hc Hsel Hthrow.
    by rewrite (loadMasterState_reduce _ _ Hc Hsel), Hthrow.
Qed.

End aggregator_facts.

Lemma loadMasterState_groups_by_id_witness :
  ∃ merged gs,
    DataService.loadMasterState Sample.cloud = Normal (VObject merged) ∧
    obj_get merged "groups" = VArray gs ∧
    Sample.group "g1" "B" ∈ gs ∧ Sample.group "g1" "A" ∉ gs.
Proof.
  destruct (loadMasterState_groups_by_id Sample.cloud Sample.answering Sample.rows)
    as (merged & gs & Hload & Hgroups & _ & Hone & _ & Hlast).
  - reflexivity.
  - reflexivity.
  - repeat constructor.
  - assert (Sample.group "g1" "B" ∈ gs) as HB.
    { apply (Hlast [Sample.group "g1" "A"] _ [Sample.group "g2" "C"]); [reflexivity|].
      intros H. apply list_elem_of_singleton in H. discriminate H. }
    exists merged, gs. repeat split; [done..|].
    intros HA. specialize (Hone _ _ HA HB eq_refl). discriminate Hone.
Defined.

Lemma loadMasterState_users_and_tasks_witness :
  ∃ merged,
    DataService.loadMasterState Sample.cloud = Normal (VObject merged) ∧
    obj_get merged "users"
      = VArray [Sample.admin; Sample.friend "u1" "Ann"; Sample.friend "u2" "Bob"] ∧
    obj_get merged "tasks" = VArray (INITIAL_TASKS Sample.cloud).
Proof.
  apply (loadMasterState_users_and_tasks Sample.cloud Sample.answering Sample.rows).
  - reflexivity.
  - reflexivity.
  - repeat constructor.
Defined.

Lemma loadMasterState_skips_and_defaults_witness :
  DataService.loadMasterState (with_client Sample.offline (Some (serving Sample.rows)))
    = DataService.loadMasterState
        (with_client Sample.offline (Some (serving [Row Sample.state_u1; Row Sample.state_u2]))) ∧
  DataService.loadMasterState Sample.failing
    = Normal (VObject (DataService.defaultState Sample.failing)) ∧
  DataService.loadMasterState
      (with_client Sample.offline (Some (serving [Row Sample.state_u1; ill_typed_row])))
    = Normal (VObject (DataService.defaultState Sample.offline)).
Proof.
  split; [|split].
  - destruct (loadMasterState_skips_and_defaults Sample.offline) as (_ & Hskip & _).
    apply (Hskip (serving Sample.rows) (serving [Row Sample.state_u1; Row Sample.state_u2])
             [Row Sample.state_u1] (Row VNull) [Row Sample.state_u2]); reflexivity.
  - destruct (loadMasterState_skips_and_defaults Sample.failing) as (_ & _ & _ & Hthrow & _).
    by apply (Hthrow Sample.unreachable (Rejected (VString "network"))).
  - destruct (loadMasterState_skips_and_defaults
                (with_client Sample.offline
                   (Some (serving [Row Sample.state_u1; ill_typed_row]))))
      as (_ & _ & _ & _ & _ & _ & _ & Hmerge).
    by apply (Hmerge (serving [Row Sample.state_u1; ill_typed_row])
                [Row Sample.state_u1; ill_typed_row] TypeError).
Defined.

(** ** The JSON text of a value *)
Section json_facts.

Lemma string_app_assoc (a b c : string) : (a +:+ b) +:+ c = a +:+ b +:+ c.
Proof.
  induction a as [|x a IH]; [done|].
  change (String x ((a +:+ b) +:+ c) = String x (a +:+ b +:+ c)). by rewrite IH.
Qed.

Lemma string_app_cons x (a b : string) : String x a +:+ b = String x (a +:+ b).
Proof. done. Qed.

Lemma string_app_nil_l (a : string) : "" +:+ a = a.
Proof. done. Qed.

Ltac string_norm :=
  repeat first [rewrite string_app_assoc | rewrite string_app_cons | rewrite string_app_nil_l].

Lemma parse_chars_quote_char c r :
  JSON.parse_chars (JSON.quote_char c +:+ r) = JSON.prepend c (JSON.parse_chars r).
Proof. destruct c as [[] [] [] [] [] [] [] []]; reflexivity. Qed.

Lemma parse_chars_quote_chars s rest :
  JSON.parse_chars (JSON.quote_chars s +:+ String JSON.dquote rest) = Some (s, rest).
Proof.
  induction s as [|c s IH]; [done|].
  simpl JSON.quote_chars. rewrite string_app_assoc, parse_chars_quote_char, IH. done.
Qed.

Lemma read_digits_uint u rest :
  match rest with String c _ => JSON.digit_of c = None | EmptyString => True end →
  JSON.read_digits (DecimalString.NilEmpty.string_of_uint u +:+ rest) = (u, rest).
Proof.
  intros Hrest. induction u as [|u IH|u IH|u IH|u IH|u IH|u IH|u IH|u IH|u IH|u IH];
    simpl DecimalString.NilEmpty.string_of_uint; rewrite ?string_app_cons.
  { rewrite string_app_nil_l. destruct rest as [|c r]; [done|]. simpl. by rewrite Hrest. }
  all: cbn -[String.append]; rewrite IH; done.
Qed.

Lemma to_uint_no_leading_zero p u : Pos.to_uint p ≠ Decimal.D0 u.
Proof.
  intros E.
  assert (Decimal.unorm (Pos.to_uint p) = Pos.to_uint p) as Hnorm.
  { rewrite <- DecimalPos.Unsigned.to_of, DecimalPos.Unsigned.of_to. done. }
  rewrite E, DecimalFacts.unorm_D0 in Hnorm.
  assert (u = Decimal.Nil ∨ u ≠ Decimal.Nil) as [->|Hu] by (destruct u; auto).
  - by apply (DecimalPos.Unsigned.to_uint_nonzero p).
  - pose proof (DecimalFacts.nb_digits_unorm u Hu) as Hle.
    rewrite Hnorm in Hle. simpl in Hle. lia.
Qed.

Lemma parse_number_pos (p : positive) (negative : bool) (rest : string) :
  ends_number rest = true →
  Z.pos p ≤ JSON.MAX_SAFE_INTEGER →
  JSON.parse_number
    ((if negative then String "-" (DecimalString.NilEmpty.string_of_uint (Pos.to_uint p))
      else DecimalString.NilEmpty.string_of_uint (Pos.to_uint p)) +:+ rest)
  = Some (VNumber (Finite (if negative then Z.neg p else Z.pos p)), rest).
Proof.
  intros Hrest Hsafe.
  assert (match rest with String c _ => JSON.digit_of c = None | EmptyString => True end)
    as Hdigit.
  { destruct rest as [|c r]; [done|]. simpl in Hrest. by destruct (JSON.digit_of c). }
  assert (JSON.starts_fraction_or_exponent rest = false) as Hfrac.
  { destruct rest as [|c r]; [done|]. unfold ends_number in Hrest.
    destruct (JSON.digit_of c); [done|]. by apply negb_true_iff in Hrest. }
  assert (∃ c t, DecimalString.NilEmpty.string_of_uint (Pos.to_uint p) = String c t
                 ∧ Ascii.eqb c "-" = false) as (c & t & Htext & Hc).
  { pose proof (DecimalPos.Unsigned.to_uint_nonnil p) as Hnn.
    destruct (Pos.to_uint p); [done|..]; simpl; eauto. }
  unfold JSON.parse_number.
  assert (JSON.read_digits
            (DecimalString.NilEmpty.string_of_uint (Pos.to_uint p) +:+ rest)
          = (Pos.to_uint p, rest)) as Hread by (by apply read_digits_uint).
  assert (Z.of_uint (Pos.to_uint p) = Z.pos p) as Hval.
  { unfold Z.of_uint. by rewrite DecimalPos.Unsigned.of_to. }
  destruct negative.
  - rewrite string_app_cons. change (Ascii.eqb "-" "-") with true. cbv iota beta.
    rewrite Hread.
    pose proof (to_uint_no_leading_zero p) as Hlead.
    pose proof (DecimalPos.Unsigned.to_uint_nonnil p) as Hnn.
    destruct (Pos.to_uint p) as [|u|u|u|u|u|u|u|u|u|u] eqn:Hu; try done;
      [exfalso; by apply (Hlead u)|..];
      rewrite Hfrac, Hval; simpl;
      destruct (JSON.MAX_SAFE_INTEGER <? Z.pos p) eqn:Hmax;
      try (apply Z.ltb_lt in Hmax; lia); done.
  - rewrite Htext, string_app_cons, Hc. rewrite <- string_app_cons, <- Htext, Hread.
    pose proof (to_uint_no_leading_zero p) as Hlead.
    pose proof (DecimalPos.Unsigned.to_uint_nonnil p) as Hnn.
    destruct (Pos.to_uint p) as [|u|u|u|u|u|u|u|u|u|u] eqn:Hu; try done;
      [exfalso; by apply (Hlead u)|..];
      rewrite Hfrac, Hval; simpl;
      destruct (JSON.MAX_SAFE_INTEGER <? Z.pos p) eqn:Hmax;
      try (apply Z.ltb_lt in Hmax; lia); done.
Qed.

Lemma parse_number_text (z : Z) (rest : string) :
  ends_number rest = true →
  Z.abs z ≤ JSON.MAX_SAFE_INTEGER →
  JSON.parse_number (JSON.number_text z +:+ rest) = Some (VNumber (Finite z), rest).
Proof.
  intros Hrest Hsafe. destruct z as [|p|p].
  - change (JSON.number_text 0) with "0".
    assert (JSON.starts_fraction_or_exponent rest = false) as Hfrac.
    { destruct rest as [|c r]; [done|]. unfold ends_number in Hrest.
      destruct (JSON.digit_of c); [done|]. by apply negb_true_iff in Hrest. }
    unfold JSON.parse_number. rewrite string_app_cons, string_app_nil_l.
    change (Ascii.eqb "0" "-") with false. cbv iota beta.
    change (JSON.read_digits (String "0" rest))
      with (let '(u, r) := JSON.read_digits rest in (Decimal.D0 u, r)).
    assert (JSON.read_digits rest = (Decimal.Nil, rest)) as ->.
    { destruct rest as [|c r]; [done|]. simpl in *. by destruct (JSON.digit_of c). }
    by rewrite Hfrac.
  - replace (JSON.number_text (Z.pos p))
      with (DecimalString.NilEmpty.string_of_uint (Pos.to_uint p)).
    + apply (parse_number_pos p false); [done|]. simpl in Hsafe. lia.
    + pose proof (DecimalPos.Unsigned.to_uint_nonnil p) as Hnn.
      unfold JSON.number_text. simpl. by destruct (Pos.to_uint p).
  - replace (JSON.number_text (Z.neg p))
      with (String "-" (DecimalString.NilEmpty.string_of_uint (Pos.to_uint p))).
    + apply (parse_number_pos p true); [done|]. simpl in Hsafe. lia.
    + pose proof (DecimalPos.Unsigned.to_uint_nonnil p) as Hnn.
      unfold JSON.number_text. simpl. by destruct (Pos.to_uint p).
Qed.

(** The equations of [stringify_value], [json_safe] and [weight] on arrays
    and objects. *)
Lemma stringify_value_array elems :
  JSON.stringify_value (VArray elems)
    = Some ("[" +:+ JSON.join "," (array_texts elems) +:+ "]").
Proof.
reflexivity. Qed.

Lemma stringify_value_object props :
  JSON.stringify_value (VObject props)
    = Some ("{" +:+ JSON.join "," (member_texts props) +:+ "}").
Proof. reflexivity. Qed.

Lemma json_safe_array elems :
  json_safe (VArray elems) = forallb json_safe elems.
Proof. reflexivity. Qed.

Lemma json_safe_object props :
  json_safe (VObject props)
    = bool_decide (NoDup props.*1)
      && forallb (λ k, negb (JSON.is_array_index k)) props.*1
      && forallb (λ kv, json_safe kv.2) props.
Proof.
  simpl. f_equal. induction props as [|[k w] props IH]; [done|]. simpl. by rewrite IH.
Qed.

Lemma weight_array elems :
  weight (VArray elems) = S (sum_list_with (λ e, S (weight e)) elems).
Proof. reflexivity. Qed.

Lemma weight_object props :
  weight (VObject props) = S (sum_list_with (λ kv, S (weight kv.2)) props).
Proof.
  simpl. f_equal. induction props as [|[k w] props IH]; [done|]. simpl. by rewrite IH.
Qed.

Lemma number_text_head z :
  ∃ c t, JSON.number_text z = String c t ∧
         c ∈ ["-"; "0"; "1"; "2"; "3"; "4"; "5"; "6"; "7"; "8"; "9"]%char.
Proof.
  assert (∀ u, u ≠ Decimal.Nil →
            ∃ c t, DecimalString.NilEmpty.string_of_uint u = String c t ∧
                   c ∈ ["0"; "1"; "2"; "3"; "4"; "5"; "6"; "7"; "8"; "9"]%char) as Hu.
  { intros u Hu. destruct u; [done|..]; simpl; eexists _, _; (split; [reflexivity|]);
      in_list. }
  unfold JSON.number_text. destruct z as [|p|p]; simpl.
  - exists "0"%char, "". split; [done|]. in_list.
  - pose proof (DecimalPos.Unsigned.to_uint_nonnil p) as Hnn.
    destruct (Hu _ Hnn) as (c & t & Ht & Hc).
    exists c, t. split; [by destruct (Pos.to_uint p)|]. in_list.
  - eexists _, _. split; [reflexivity|]. in_list.
Qed.

Lemma stringify_value_head v t :
  JSON.stringify_value v = Some t → ∃ c t', t = String c t' ∧ c ∈ value_heads.
Proof.
  destruct v as [| |[]|[z| |]|s|elems|props].
  all: try (intros [= <-]; eexists _, _; (split; [reflexivity|]); unfold value_heads; in_list).
  - intros [= <-]. destruct (number_text_head z) as (c & t & -> & Hc).
    exists c, t. split; [done|]. unfold value_heads. in_list.
Qed.

Lemma parse_value_number f c r :
  c ∈ ["-"; "0"; "1"; "2"; "3"; "4"; "5"; "6"; "7"; "8"; "9"]%char →
  JSON.parse_value (S f) (String c r) = JSON.parse_number (String c r).
Proof.
  intros H. repeat (apply elem_of_cons in H as [->|H]; [reflexivity|]). by inversion H.
Qed.

Lemma parse_value_string f r :
  JSON.parse_value (S f) (String JSON.dquote r)
    = match JSON.parse_chars r with
      | Some (str, rest) => Some (VString str, rest)
      | None => None
      end.
Proof. simpl. by destruct (JSON.parse_chars r) as [[??]|]. Qed.

Lemma parse_value_array f c r :
  c ∈ value_heads →
  JSON.parse_value (S f) (String "[" (String c r))
    = match JSON.parse_elements f (String c r) with
      | Some (elems, rest) => Some (VArray elems, rest)
      | None => None
      end.
Proof.
  intros H. unfold value_heads in H.
  repeat (apply elem_of_cons in H as [->|H];
          [simpl; by destruct (JSON.parse_elements f _) as [[??]|]|]).
  by inversion H.
Qed.

Lemma parse_value_object f r :
  JSON.parse_value (S f) (String "{" (String JSON.dquote r))
    = match JSON.parse_members f (String JSON.dquote r) [] with
      | Some (props, rest) => Some (VObject props, rest)
      | None => None
      end.
Proof. simpl. by destruct (JSON.parse_members f _ _) as [[??]|]. Qed.

Lemma parse_elements_more f s v r :
  JSON.parse_value f s = Some (v, String "," r) →
  JSON.parse_elements (S f) s
    = match JSON.parse_elements f r with
      | Some (vs, rest) => Some (v :: vs, rest)
      | None => None
      end.
Proof. intros H. simpl. rewrite H. simpl. by destruct (JSON.parse_elements f r) as [[??]|]. Qed.

Lemma parse_elements_last f s v r :
  JSON.parse_value f s = Some (v, String "]" r) →
  JSON.parse_elements (S f) s = Some ([v], r).
Proof. intros H. simpl. by rewrite H. Qed.

Lemma parse_members_more f r acc k r2 v r4 :
  JSON.parse_chars r = Some (k, String ":" r2) →
  JSON.parse_value f r2 = Some (v, String "," r4) →
  JSON.is_array_index k = false →
  JSON.parse_members (S f) (String JSON.dquote r) acc
    = JSON.parse_members f r4 (obj_set acc k v).
Proof. intros Hk Hv Hi. simpl. rewrite Hk. simpl. rewrite Hv. simpl. by rewrite Hi. Qed.

Lemma parse_members_last f r acc k r2 v r4 :
  JSON.parse_chars r = Some (k, String ":" r2) →
  JSON.parse_value f r2 = Some (v, String "}" r4) →
  JSON.is_array_index k = false →
  JSON.parse_members (S f) (String JSON.dquote r) acc = Some (obj_set acc k v, r4).
Proof. intros Hk Hv Hi. simpl. rewrite Hk. simpl. rewrite Hv. simpl. by rewrite Hi. Qed.

Lemma obj_set_fresh acc k v : k ∉ acc.*1 → obj_set acc k v = acc ++ [(k, v)].
Proof.
  induction acc as [|[k' w] acc IH]; simpl; intros Hk; [done|].
  destruct (String.eqb_spec k' k) as [->|Hne].
  - exfalso. apply Hk. by left.
  - f_equal. apply IH. intros H. apply Hk. by right.
Qed.

Lemma array_texts_cons e elems t :
  JSON.stringify_value e = Some t → array_texts (e :: elems) = t :: array_texts elems.
Proof. intros H. unfold array_texts. simpl. by rewrite H. Qed.

Lemma parse_elements_texts elems :
  elems ≠ [] → Forall reads_back elems →
  ∀ fuel rest,
    (sum_list_with (λ e, S (weight e)) elems ≤ fuel)%nat →
    JSON.parse_elements fuel (JSON.join "," (array_texts elems) +:+ String "]" rest)
      = Some (elems, rest).
Proof.
  induction elems as [|e elems IH]; [done|].
  intros _ Hall fuel rest Hfuel.
  apply Forall_cons in Hall as [(t & Ht & Hread) Hall].
  rewrite (array_texts_cons _ _ _ Ht). simpl in Hfuel.
  destruct fuel as [|f]; [lia|].
  destruct elems as [|e' elems].
  - simpl. apply parse_elements_last. apply Hread; [lia|done].
  - destruct (Forall_cons_1 _ _ _ Hall) as [(t' & Ht' & _) _].
    rewrite (array_texts_cons _ _ _ Ht').
    change (JSON.join "," (t :: t' :: array_texts elems))
      with (t +:+ "," +:+ JSON.join "," (t' :: array_texts elems)).
    rewrite <- (array_texts_cons _ _ _ Ht').
    string_norm.
    rewrite (parse_elements_more f _ e
               (JSON.join "," (array_texts (e' :: elems)) +:+ String "]" rest)).
    + rewrite IH; [done|done|done|lia].
    + apply Hread; [lia|done].
Qed.

Lemma member_texts_cons k w props t :
  JSON.stringify_value w = Some t →
  member_texts ((k, w) :: props) = (JSON.quote k +:+ ":" +:+ t) :: member_texts props.
Proof. intros H. simpl. by rewrite H. Qed.

Lemma parse_members_texts props :
  props ≠ [] →
  Forall (λ kv, reads_back kv.2) props →
  Forall (λ kv, JSON.is_array_index kv.1 = false) props →
  ∀ acc fuel rest,
    NoDup (acc ++ props).*1 →
    (sum_list_with (λ kv, S (weight kv.2)) props ≤ fuel)%nat →
    JSON.parse_members fuel (JSON.join "," (member_texts props) +:+ String "}" rest) acc
      = Some (acc ++ props, rest).
Proof.
  induction props as [|[k w] props IH]; [done|].
  intros _ Hall Hidx acc fuel rest Hnd Hfuel.
  apply Forall_cons in Hall as [(t & Ht & Hread) Hall].
  apply Forall_cons in Hidx as [Hk Hidx]. simpl in Ht, Hread, Hk.
  rewrite (member_texts_cons _ _ _ _ Ht). simpl in Hfuel.
  destruct fuel as [|f]; [lia|].
  assert (obj_set acc k w = acc ++ [(k, w)]) as Hset.
  { apply obj_set_fresh. rewrite fmap_app in Hnd. apply NoDup_app in Hnd as (_ & Hnd & _).
    intros Hin. apply (Hnd k Hin). by left. }
  destruct props as [|[k' w'] props].
  - simpl JSON.join. unfold JSON.quote. string_norm.
    rewrite (parse_members_last f _ acc k (t +:+ String "}" rest) w rest).
    + by rewrite Hset.
    + apply parse_chars_quote_chars.
    + apply Hread; [lia|done].
    + done.
  - destruct (Forall_cons_1 _ _ _ Hall) as [(t' & Ht' & _) _]. simpl in Ht'.
    rewrite (member_texts_cons _ _ _ _ Ht').
    change (JSON.join "," ((JSON.quote k +:+ ":" +:+ t)
                             :: (JSON.quote k' +:+ ":" +:+ t') :: member_texts props))
      with ((JSON.quote k +:+ ":" +:+ t) +:+ "," +:+
            JSON.join "," ((JSON.quote k' +:+ ":" +:+ t') :: member_texts props)).
    rewrite <- (member_texts_cons _ _ _ _ Ht').
    unfold JSON.quote at 1. string_norm.
    rewrite (parse_members_more f _ acc k
               (t +:+ String "," (JSON.join "," (member_texts ((k', w') :: props))
                                  +:+ String "}" rest))
               w (JSON.join "," (member_texts ((k', w') :: props)) +:+ String "}" rest)).
    + rewrite Hset, IH; [by rewrite <- app_assoc|done|done|done| |lia].
      by rewrite <- app_assoc.
    + apply parse_chars_quote_chars.
    + apply Hread; [lia|done].
    + done.
Qed.

Lemma reads_back_safe v : json_safe v = true → reads_back v.
Proof.
  induction v as [| |b|n|s|elems IH|props IH] using value_ind; intros Hsafe.
  - done.
  - exists "null". split; [done|]. intros [|f] rest Hf _; [simpl in Hf; lia|done].
  - exists (if b then "true" else "false"). split; [by destruct b|].
    intros [|f] rest Hf _; [simpl in Hf; lia|]. by destruct b.
  - destruct n as [z| |]; try done. exists (JSON.number_text z). split; [done|].
    intros [|f] rest Hf Hrest; [simpl in Hf; lia|].
    destruct (number_text_head z) as (c & t & Ht & Hc).
    rewrite Ht, string_app_cons, parse_value_number by done.
    rewrite <- string_app_cons, <- Ht. apply parse_number_text; [done|].
    simpl in Hsafe. by apply Z.leb_le.
  - exists (JSON.quote s). split; [done|].
    intros [|f] rest Hf _; [simpl in Hf; lia|].
    unfold JSON.quote. string_norm. rewrite parse_value_string.
    by rewrite parse_chars_quote_chars.
  - rewrite json_safe_array in Hsafe. eexists. split; [apply stringify_value_array|].
    intros [|f] rest Hf _; [simpl in Hf; lia|].
    rewrite weight_array in Hf.
    assert (Forall reads_back elems) as Hall.
    { rewrite forallb_forall in Hsafe. rewrite Forall_forall in IH.
      apply Forall_forall. intros e He. apply IH; [done|]. apply Hsafe.
      by apply list_elem_of_In. }
    destruct elems as [|e elems]; [done|].
    destruct (Forall_cons_1 _ _ _ Hall) as [(t & Ht & _) _].
    destruct (stringify_value_head _ _ Ht) as (c & t' & -> & Hc).
    rewrite (array_texts_cons _ _ _ Ht).
    assert (∃ r, JSON.join "," (String c t' :: array_texts elems) = String c r) as [r Hr].
    { destruct (array_texts elems); simpl; eauto. }
    string_norm.
    pose proof (parse_elements_texts (e :: elems)) as Hparse.
    rewrite (array_texts_cons _ _ _ Ht) in Hparse.
    rewrite Hr in *. string_norm. rewrite parse_value_array by done.
    rewrite <- string_app_cons. rewrite Hparse; [done|done|done|lia].
  - rewrite json_safe_object in Hsafe.
    apply andb_true_iff in Hsafe as [Hsafe Hvals].
    apply andb_true_iff in Hsafe as [Hnd Hidx].
    apply bool_decide_eq_true in Hnd.
    eexists. split; [apply stringify_value_object|].
    intros [|f] rest Hf _; [simpl in Hf; lia|].
    rewrite weight_object in Hf.
    assert (Forall (λ kv, reads_back kv.2) props) as Hall.
    { rewrite forallb_forall in Hvals. rewrite Forall_forall in IH.
      apply Forall_forall. intros kv Hkv. apply IH; [done|]. apply Hvals.
      by apply list_elem_of_In. }
    assert (Forall (λ kv, JSON.is_array_index kv.1 = false) props) as Hidx'.
    { rewrite forallb_forall in Hidx. apply Forall_forall. intros kv Hkv.
      apply negb_true_iff, Hidx, list_elem_of_In, list_elem_of_fmap. by exists kv. }
    destruct props as [|[k w] props]; [done|].
    destruct (Forall_cons_1 _ _ _ Hall) as [(t & Ht & _) _]. simpl in Ht.
    pose proof (parse_members_texts ((k, w) :: props)) as Hparse.
    rewrite (member_texts_cons _ _ _ _ Ht) in *.
    assert (∃ r, JSON.join "," ((JSON.quote k +:+ ":" +:+ t) :: member_texts props)
                 = String JSON.dquote r) as [r Hr].
    { destruct (member_texts props); simpl; eauto. }
    rewrite Hr in *. string_norm. rewrite parse_value_object.
    rewrite <- string_app_cons.
    rewrite (Hparse ltac:(done) Hall Hidx' [] f rest); [done|done|lia].
Qed.

Lemma stringify_value_safe v :
  json_safe v = true → ∃ t, JSON.stringify_value v = Some t.
Proof. destruct v as [| |[]|[| |]| | |]; try done; eauto. Qed.

Lemma join_length (l : list string) :
  (sum_list_with (λ t, S (String.length t)) l ≤ S (String.length (JSON.join "," l)))%nat.
Proof.
  induction l as [|x l IH]; simpl; [lia|].
  destruct l as [|y l]; [simpl; lia|].
  rewrite !string_app_length. simpl in *. lia.
Qed.

Lemma weight_le_length v :
  json_safe v = true →
  ∀ t, JSON.stringify_value v = Some t → (weight v ≤ String.length t)%nat.
Proof.
  induction v as [| |b|n|s|elems IH|props IH] using value_ind; intros Hsafe t Ht.
  - done.
  - injection Ht as <-. simpl. lia.
  - destruct b; injection Ht as <-; simpl; lia.
  - destruct (stringify_value_head _ _ Ht) as (c & t' & -> & _). simpl. lia.
  - injection Ht as <-. simpl. lia.
  - rewrite json_safe_array in Hsafe. rewrite stringify_value_array in Ht.
    injection Ht as <-. rewrite weight_array, !string_app_length. simpl.
    pose proof (join_length (array_texts elems)) as Hjoin.
    assert (sum_list_with (λ e, S (weight e)) elems
            ≤ sum_list_with (λ t, S (String.length t)) (array_texts elems))%nat; [|lia].
    clear Hjoin. induction elems as [|e elems IHelems]; [done|].
    apply Forall_cons in IH as [He IH]. simpl in Hsafe.
    apply andb_true_iff in Hsafe as [Hse Hsafe].
    destruct (stringify_value_safe e Hse) as [t Ht].
    rewrite (array_texts_cons _ _ _ Ht). simpl.
    specialize (He Hse t Ht). specialize (IHelems IH Hsafe). lia.
  - rewrite json_safe_object in Hsafe. rewrite stringify_value_object in Ht.
    apply andb_true_iff in Hsafe as [_ Hsafe].
    injection Ht as <-. rewrite weight_object, !string_app_length. simpl.
    pose proof (join_length (member_texts props)) as Hjoin.
    assert (sum_list_with (λ kv, S (weight kv.2)) props
            ≤ sum_list_with (λ t, S (String.length t)) (member_texts props))%nat; [|lia].
    clear Hjoin. induction props as [|[k w] props IHprops]; [done|].
    apply Forall_cons in IH as [Hw IH]. simpl in Hsafe, Hw.
    apply andb_true_iff in Hsafe as [Hsw Hsafe].
    destruct (stringify_value_safe w Hsw) as [t Ht].
    rewrite (member_texts_cons _ _ _ _ Ht). simpl.
    rewrite !string_app_length.
    specialize (Hw Hsw t Ht). specialize (IHprops IH Hsafe). lia.
Qed.

Lemma string_app_nil_r (a : string) : a +:+ "" = a.
Proof.
  induction a as [|c a IH]; [done|].
  change (String c (a +:+ "") = String c a). by rewrite IH.
Qed.

(** The text of a value that has one reads back as the value. *)
Lemma parse_stringify v :
  json_safe v = true →
  ∃ t, JSON.stringify v = Some t ∧ t ≠ "" ∧ JSON.parse t = Some v.
Proof.
  intros Hsafe. destruct (reads_back_safe v Hsafe) as (t & Ht & Hread).
  exists t. split; [done|]. split.
  { destruct (stringify_value_head _ _ Ht) as (c & t' & -> & _). done. }
  unfold JSON.parse.
  rewrite <- (string_app_nil_r t) at 2.
  rewrite Hread; [done| |done].
  pose proof (weight_le_length v Hsafe t Ht). lia.
Qed.

End json_facts.




(** A property whose value is [undefined], as the [attachment] of a message
    sent without one, is not written, so it does not come back. *)
Lemma roundtrip_drops_undefined_property :
  (text ← JSON.stringify (VObject [("content", VString "hi"); ("attachment", VUndefined)]);
   JSON.parse text)
    = Some (VObject [("content", VString "hi")]).
Proof. reflexivity. Qed.

(** * Further properties *)

(** ** The reducers of the application shell *)
Section shell_facts.
Context {Task Group StatusUpdate Attachment : Type}.
Abbreviation AnyState := (@App.AppState Task Group StatusUpdate Attachment).

Local Open Scope nat_scope.


(** X1: [handleUpdateRecord] touches one record at most: every record whose
    pair of [userId] and [date] is not the one of the update, and every
    record that stands after another one with that pair, is in the new state
    at the index it had. *)
Theorem handleUpdateRecord_other_records
    random_id (u : App.RecordUpdate) (st : AnyState) i r :
  App.records st !! i = Some r →
  (App.record_key r ≠ (App.upd_userId u, App.upd_date u) ∨
   ∃ j r', j < i ∧ App.records st !! j = Some r' ∧
           App.record_key r' = (App.upd_userId u, App.upd_date u)) →
  ∃ st', App.handleUpdateRecord random_id u (Some st) = Some st' ∧
         App.records st' !! i = Some r.
Proof.
  intros Hi Hother. eexists. split; [reflexivity|]. simpl.
  destruct (findIndex_cases (App.same_user_and_date u) (App.records st))
    as [[-> _]|(k & x & -> & Hk & Hx & Hbefore)].
  - simpl. by apply lookup_app_l_Some.
  - replace (Z.of_nat k >? -1)%Z with true by (symmetry; apply Z.gtb_lt; lia).
    rewrite Nat2Z.id. rewrite list_lookup_alter_ne; [done|].
    intros ->. simplify_eq. destruct Hother as [Hne|(j & r' & Hj & Hr' & Hkey)].
    + apply Hne. by apply same_user_and_date_key.
    + apply same_user_and_date_key in Hkey. specialize (Hbefore _ _ Hj Hr'). congruence.
Qed.





Lemma trim_start_empty s : App.trim_start s = "" ↔ all_spaces s = true.
Proof.
  induction s as [|c s IH]; simpl; [done|].
  destruct (App.is_space c); simpl; [done|]. split; discriminate.
Qed.

Lemma trim_end_empty s : App.trim_end s = "" ↔ all_spaces s = true.
Proof.
  induction s as [|c s IH]; simpl; [done|].
  destruct (App.trim_end s) eqn:Hend.
  - destruct (App.is_space c); simpl; [tauto|]. split; discriminate.
  - split; [discriminate|]. intros [_ Hs]%andb_true_iff.
    apply IH in Hs. discriminate.
Qed.

Lemma trim_start_shape s :
  App.trim_start s = "" ∨ ∃ c r, App.trim_start s = String c r ∧ App.is_space c = false.
Proof.
  induction s as [|c s IH]; simpl; [by left|].
  destruct (App.is_space c) eqn:Hc; [done|]. right. by exists c, s.
Qed.

(** [trim] empties exactly the texts made of white space only. *)
Lemma trim_empty s : App.trim s = "" ↔ all_spaces s = true.
Proof.
  unfold App.trim. rewrite trim_end_empty, <- (trim_start_empty s).
  destruct (trim_start_shape s) as [H|(c & r & H & Hc)]; rewrite H; [done|].
  simpl. rewrite Hc. simpl. split; discriminate.
Qed.

(** X3: without an attachment, [handleSendMessage] drops a text exactly when
    it is made of white space only (tab, line feed, vertical tab, form feed,
    carriage return, space, no-break space), the empty text included; a text
    that it keeps is stored as it was typed, untrimmed. *)
Theorem handleSendMessage_blank
    random_id now receiver text (st : AnyState) user :
  App.currentUser st = Some user →
  (all_spaces text = true →
     App.handleSendMessage random_id now receiver text None (Some st) = Some st) ∧
  (all_spaces text = false →
     ∃ st' m,
       App.handleSendMessage random_id now receiver text None (Some st) = Some st' ∧
       App.messages st' = App.messages st ++ [m] ∧ App.content m = text).
Proof.
  intros Huser. unfold App.handleSendMessage. rewrite Huser. simpl.
  rewrite andb_true_r. split.
  - intros Hblank. apply trim_empty in Hblank. rewrite Hblank. done.
  - intros Htext.
    assert (nonempty (App.trim text) = true) as ->.
    { apply nonempty_true. intros Hempty. apply trim_empty in Hempty. congruence. }
    simpl. by eexists _, _.
Qed.

End shell_facts.

Lemma handleUpdateRecord_other_records_witness :
  ∃ st', App.handleUpdateRecord "r2" (SampleApp.update "2024-01-02" 10)
           (Some SampleApp.logged_in) = Some st' ∧
         App.records st' !! 0%nat = Some SampleApp.monday.
Proof.
  apply (@handleUpdateRecord_other_records string string string string
           "r2" (SampleApp.update "2024-01-02" 10) SampleApp.logged_in
           0%nat SampleApp.monday).
  - reflexivity.
  - left. discriminate.
Defined.


Lemma handleSendMessage_blank_witness :
  App.handleSendMessage "m1" "2024-01-02T10:00:00.000Z" "admin-1"
    (String "009" (String "160" " ")) None (Some SampleApp.logged_in)
  = Some SampleApp.logged_in.
Proof.
  destruct (handleSendMessage_blank "m1" "2024-01-02T10:00:00.000Z" "admin-1"
              (String "009" (String "160" " ")) SampleApp.logged_in SampleApp.ann)
    as [Hblank _]; [reflexivity|].
  apply Hblank. reflexivity.
Defined.

(** ** Groups, statuses and sessions *)
Section group_facts.
Context {Task Attachment : Type}.
Abbreviation ShellState := (@Shell.State Task Attachment).

Local Open Scope nat_scope.

Lemma post_to_id (random_id now : nat → string) user groupId text
    (file : option Attachment) i (g : Shell.Group) :
  Shell.id (Shell.post_to random_id now user groupId text file i g) = Shell.id g.
Proof. unfold Shell.post_to. by case_bool_decide. Qed.

Lemma set_members_id groupId members (g : @Shell.Group Attachment) :
  Shell.id (Shell.set_members groupId members g) = Shell.id g.
Proof. unfold Shell.set_members. by case_bool_decide. Qed.

(** X4: for a logged-in user [handlePostToGroup] keeps the number, the order
    and the ids of the groups; a group with another id is left as it is, and
    every group with the given id gets exactly one more post, last, written
    by the current user with the given content and attachment, its other
    fields unchanged.  When no group has the id the state comes back
    unchanged: posting to an unknown group is silently dropped. *)
Theorem handlePostToGroup_groups
    (random_id now : nat → string) groupId text (file : option Attachment)
    (st : ShellState) user :
  App.currentUser st = Some user →
  ∃ st',
    Shell.handlePostToGroup random_id now groupId text file (Some st) = Some st' ∧
    length (App.groups st') = length (App.groups st) ∧
    Shell.id <$> App.groups st' = Shell.id <$> App.groups st ∧
    (∀ i g, App.groups st !! i = Some g → Shell.id g ≠ groupId →
            App.groups st' !! i = Some g) ∧
    (∀ i g, App.groups st !! i = Some g → Shell.id g = groupId →
       ∃ g' p,
         App.groups st' !! i = Some g' ∧
         Shell.posts g' = Shell.posts g ++ [p] ∧
         Shell.authorId p = App.user_id user ∧ Shell.post_content p = text ∧
         Shell.post_attachment p = file ∧
         Shell.name g' = Shell.name g ∧ Shell.description g' = Shell.description g ∧
         Shell.memberIds g' = Shell.memberIds g) ∧
    (groupId ∉ Shell.id <$> App.groups st → st' = st) ∧
    App.users st' = App.users st ∧ App.tasks st' = App.tasks st ∧
    App.records st' = App.records st ∧ App.messages st' = App.messages st ∧
    App.statuses st' = App.statuses st ∧ App.currentUser st' = App.currentUser st.
Proof.
  intros Huser. unfold Shell.handlePostToGroup. rewrite Huser.
  eexists. split; [reflexivity|]. simpl.
  split; [apply length_imap|].
  split.
  { apply list_eq. intros i. rewrite !list_lookup_fmap, list_lookup_imap.
    destruct (App.groups st !! i); simpl; [|done]. by rewrite post_to_id. }
  split.
  { intros i g Hi Hne. rewrite list_lookup_imap, Hi. simpl.
    unfold Shell.post_to. by rewrite bool_decide_eq_false_2. }
  split.
  { intros i g Hi Heq. rewrite list_lookup_imap, Hi. simpl.
    unfold Shell.post_to. rewrite bool_decide_eq_true_2 by done.
    eexists _, _. split; [reflexivity|]. simpl. by repeat split. }
  split; [|by repeat split].
  intros Hnone. destruct st as [us ts rs ms gs ss cu]. simpl in *.
  f_equal; [|congruence].
  apply list_eq. intros i. rewrite list_lookup_imap.
  destruct (gs !! i) as [g|] eqn:Hi; simpl; [|done].
  unfold Shell.post_to. rewrite bool_decide_eq_false_2; [done|].
  intros Heq. apply Hnone. apply list_elem_of_fmap. exists g.
  split; [done|]. by eapply list_elem_of_lookup_2.
Qed.

(** X5: [handleUpdateGroupMembers] and [handlePostToGroup] commute, for the
    same group or for two groups; and of two member lists set for the same
    group id the second one stands, as if the first had never been set. *)
Theorem handleUpdateGroupMembers_composes
    (random_id now : nat → string) groupId members members'
    postGroup text (file : option Attachment) (prev : option ShellState) :
  Shell.handleUpdateGroupMembers groupId members
      (Shell.handlePostToGroup random_id now postGroup text file prev)
    = Shell.handlePostToGroup random_id now postGroup text file
        (Shell.handleUpdateGroupMembers groupId members prev) ∧
  Shell.handleUpdateGroupMembers groupId members'
      (Shell.handleUpdateGroupMembers groupId members prev)
    = Shell.handleUpdateGroupMembers groupId members' prev.
Proof.
  destruct prev as [st|]; [|done]. split.
  - unfold Shell.handlePostToGroup, Shell.handleUpdateGroupMembers. simpl.
    destruct (App.currentUser st) as [user|] eqn:Hu; simpl; rewrite ?Hu; [|done].
    do 2 f_equal. apply list_eq. intros i.
    rewrite list_lookup_fmap, !list_lookup_imap, list_lookup_fmap.
    destruct (App.groups st !! i) as [g|]; simpl; [|done]. f_equal.
    unfold Shell.post_to, Shell.set_members.
    repeat case_bool_decide; simpl in *; done.
  - unfold Shell.handleUpdateGroupMembers. simpl. do 2 f_equal.
    rewrite <- list_fmap_compose. apply list_fmap_ext. intros i g _. simpl.
    unfold Shell.set_members. repeat case_bool_decide; simpl in *; done.
Qed.

(** X6: when the ids of the groups are distinct and the new id is not among
    them, [handleAddGroup] appends one group without posts and the ids stay
    distinct; a post to the new id then reaches the new group and no other
    group. *)
Theorem handleAddGroup_then_post
    new_id group_name group_description members
    (random_id now : nat → string) text (file : option Attachment)
    (st : ShellState) user :
  NoDup (Shell.id <$> App.groups st) →
  new_id ∉ Shell.id <$> App.groups st →
  App.currentUser st = Some user →
  ∃ st1 st2 g p,
    Shell.handleAddGroup new_id group_name group_description members (Some st)
      = Some st1 ∧
    App.groups st1 = App.groups st ++ [g] ∧
    Shell.id g = new_id ∧ Shell.memberIds g = members ∧ Shell.posts g = [] ∧
    NoDup (Shell.id <$> App.groups st1) ∧
    Shell.handlePostToGroup random_id now new_id text file (Some st1) = Some st2 ∧
    App.groups st2
      = App.groups st ++
        [ {| Shell.id := new_id; Shell.name := group_name;
             Shell.description := group_description;
             Shell.memberIds := members; Shell.posts := [p] |} ] ∧
    Shell.authorId p = App.user_id user ∧ Shell.post_content p = text.
Proof.
  intros Hnd Hfresh Huser.
  eexists _, _, _, _. split; [reflexivity|]. simpl.
  split; [reflexivity|]. split; [reflexivity|]. split; [reflexivity|].
  split; [reflexivity|]. split.
  { rewrite fmap_app. apply NoDup_app. split; [done|]. split.
    - intros x Hx Hx'. apply list_elem_of_singleton in Hx'. by subst.
    - apply NoDup_singleton. }
  unfold Shell.handlePostToGroup. simpl. rewrite Huser.
  split; [reflexivity|]. simpl. split.
  { rewrite imap_app. simpl. f_equal.
    - apply list_eq. intros i. rewrite list_lookup_imap.
      destruct (App.groups st !! i) as [g|] eqn:Hi; simpl; [|done].
      unfold Shell.post_to. rewrite bool_decide_eq_false_2; [done|].
      intros Heq. apply Hfresh. apply list_elem_of_fmap. exists g.
      split; [done|]. by eapply list_elem_of_lookup_2.
    - unfold Shell.post_to. simpl. by rewrite bool_decide_eq_true_2. }
  by split.
Qed.

(** X7: that the user who is logged in is one of the users of the state is
    established by [handleSignup] and by [handleLogout], kept by
    [handleLogin] for a user of the state, and kept by every other reducer:
    [handleUpdateRecord], [handleSendMessage], [handleAddGroup],
    [handlePostToGroup], [handleUpdateGroupMembers] and
    [handleUploadStatus]. *)
Theorem reducers_keep_current_user_known (st : ShellState) :
  (∀ user st', Shell.handleSignup user (Some st) = Some st' → current_user_known st') ∧
  (∀ st', Shell.handleLogout (Some st) = Some st' → current_user_known st') ∧
  (∀ user st', user ∈ App.users st →
     Shell.handleLogin user (Some st) = Some st' → current_user_known st') ∧
  (current_user_known st →
   (∀ rid u st', App.handleUpdateRecord rid u (Some st) = Some st' →
      current_user_known st') ∧
   (∀ rid now receiver text file st',
      App.handleSendMessage rid now receiver text file (Some st) = Some st' →
      current_user_known st') ∧
   (∀ rid n d ms st', Shell.handleAddGroup rid n d ms (Some st) = Some st' →
      current_user_known st') ∧
   (∀ rid now gid text file st',
      Shell.handlePostToGroup rid now gid text file (Some st) = Some st' →
      current_user_known st') ∧
   (∀ gid ms st', Shell.handleUpdateGroupMembers gid ms (Some st) = Some st' →
      current_user_known st') ∧
   (∀ rid now text file st',
      Shell.handleUploadStatus rid now text file (Some st) = Some st' →
      current_user_known st')).
Proof.
  unfold current_user_known. split; [|split; [|split]].
  - intros user st' [= <-] u [= <-]. simpl. apply elem_of_app. right. by left.
  - by intros st' [= <-] u.
  - by intros user st' Hin [= <-] u [= <-].
  - intros Hknown. repeat split.
    + intros rid u st' [= <-]. exact Hknown.
    + intros rid now receiver text file st'. unfold App.handleSendMessage.
      destruct (App.currentUser st) as [user|] eqn:Huser.
      * destruct (_ && _); intros [= <-]; simpl; [by rewrite Huser|done].
      * intros [= <-]. by rewrite Huser.
    + intros rid n d ms st' [= <-]. exact Hknown.
    + intros rid now gid text file st'. unfold Shell.handlePostToGroup.
      destruct (App.currentUser st) as [user|] eqn:Huser; intros [= <-]; simpl;
        [done|by rewrite Huser].
    + intros gid ms st' [= <-]. exact Hknown.
    + intros rid now text file st'. unfold Shell.handleUploadStatus.
      destruct (App.currentUser st) as [user|] eqn:Huser; intros [= <-]; simpl;
        [done|by rewrite Huser].
Qed.

End group_facts.

Lemma handlePostToGroup_groups_witness :
  ∃ st', Shell.handlePostToGroup (λ _, "p1") (λ _, "2024-01-02T10:00:00.000Z")
           "g9" "hello" None (Some SampleShell.logged_in) = Some st' ∧
         st' = SampleShell.logged_in.
Proof.
  destruct (@handlePostToGroup_groups string string (λ _, "p1")
              (λ _, "2024-01-02T10:00:00.000Z") "g9" "hello" None
              SampleShell.logged_in SampleApp.ann eq_refl)
    as (st' & Hst & _ & _ & _ & _ & Hnone & _).
  exists st'. split; [done|]. apply Hnone.
  intros H. apply list_elem_of_singleton in H. discriminate H.
Defined.

Lemma handleAddGroup_then_post_witness :
  ∃ st1 st2,
    Shell.handleAddGroup "g2" "Reading" "" ["u1"] (Some SampleShell.logged_in) = Some st1 ∧
    Shell.handlePostToGroup (λ _, "p1") (λ _, "2024-01-02T10:00:00.000Z")
      "g2" "hello" None (Some st1) = Some st2 ∧
    length (App.groups st2) = 2%nat.
Proof.
  destruct (@handleAddGroup_then_post string string "g2" "Reading" "" ["u1"]
              (λ _, "p1") (λ _, "2024-01-02T10:00:00.000Z") "hello" None
              SampleShell.logged_in SampleApp.ann)
    as (st1 & st2 & g & p & H1 & _ & _ & _ & _ & _ & H2 & Hgroups & _).
  - apply NoDup_singleton.
  - intros H. apply list_elem_of_singleton in H. discriminate H.
  - reflexivity.
  - exists st1, st2. split; [done|]. split; [done|]. by rewrite Hgroups.
Defined.

Lemma reducers_keep_current_user_known_witness :
  ∃ st', Shell.handleLogin SampleApp.ann (Some SampleShell.logged_in) = Some st' ∧
         current_user_known st'.
Proof.
  destruct (@reducers_keep_current_user_known string string SampleShell.logged_in)
    as (_ & _ & Hlogin & _).
  eexists. split; [reflexivity|]. apply (Hlogin SampleApp.ann); [by left|reflexivity].
Defined.

(** ** [loadState], [saveState] and [signOut] together *)
Section storage_composition.
Context (env : Env).

(** [loadState] reads the local cache under the key of the user only. *)
Lemma loadState_reads_user_key (ls ls' : gmap string string) userId :
  ls !! DataService.user_key env userId = ls' !! DataService.user_key env userId →
  DataService.loadState env ls userId = DataService.loadState env ls' userId.
Proof. intros H. unfold DataService.loadState, getItem. by rewrite H. Qed.

Lemma user_key_inj a b :
  DataService.user_key env a = DataService.user_key env b → a = b.
Proof.
  unfold DataService.user_key. intros H.
  apply (inj (String.app (STORAGE_KEY env))) in H.
  by apply (inj (String.app "_")) in H.
Qed.

Lemma saveState_other_key userId state (ls : gmap string string) k :
  k ≠ DataService.user_key env userId →
  (DataService.saveState env userId state ls).1 !! k = ls !! k.
Proof.
  intros Hk. unfold DataService.saveState, setItem.
  destruct (nonempty userId); simpl; [|done]. by rewrite lookup_insert_ne.
Qed.

(** X8: [signOut] does not change what [loadState] returns, for any user:
    the state a user cached before signing out is the state loaded from the
    cache after signing in again. *)
Theorem loadState_after_signOut (ls : gmap string string) userId :
  DataService.loadState env (DataService.signOut env ls).1 userId
    = DataService.loadState env ls userId.
Proof.
  apply loadState_reads_user_key, signOut_other_keys, user_key_not_global.
Qed.

(** X9: [saveState] for one user does not change what [loadState] returns
    for another user: different user ids have different keys. *)
Theorem loadState_after_saveState_other
    (ls : gmap string string) userId other state :
  other ≠ userId →
  DataService.user_key env other ≠ DataService.user_key env userId ∧
  DataService.loadState env (DataService.saveState env userId state ls).1 other
    = DataService.loadState env ls other.
Proof.
  intros Hne.
  assert (DataService.user_key env other ≠ DataService.user_key env userId) as Hkey.
  { intros H. by apply user_key_inj in H. }
  split; [done|]. by apply loadState_reads_user_key, saveState_other_key.
Qed.

(** X10: of two states saved for the same user the second one replaces the
    first in the local cache, and saves for two different users can be done
    in either order. *)
Theorem saveState_last_wins (ls : gmap string string) userId other state state' :
  (DataService.saveState env userId state'
     (DataService.saveState env userId state ls).1).1
    = (DataService.saveState env userId state' ls).1 ∧
  (other ≠ userId →
   (DataService.saveState env userId state
      (DataService.saveState env other state' ls).1).1
     = (DataService.saveState env other state'
          (DataService.saveState env userId state ls).1).1).
Proof.
  unfold DataService.saveState, setItem. split.
  - destruct (nonempty userId); simpl; [|done]. apply insert_insert_eq.
  - intros Hne. destruct (nonempty userId), (nonempty other); simpl; try done.
    apply insert_insert_ne. intros H. by apply user_key_inj in H.
Qed.

(** X11: when the state handed to [saveState] is [undefined], the text
    cached for the user is "undefined", which does not parse: with the
    remote tier yielding nothing, [loadState] then returns the default
    state. *)
Theorem saveState_undefined_then_loadState (ls : gmap string string) userId :
  JSON_stringify env = JSON.stringify →
  JSON_parse env = JSON_parse_model →
  userId ≠ "" →
  remote_miss env userId →
  (DataService.saveState env userId VUndefined ls).1
     !! DataService.user_key env userId = Some "undefined" ∧
  DataService.loadState env (DataService.saveState env userId VUndefined ls).1 userId
    = Normal (VObject (DataService.defaultState env)).
Proof.
  intros Hstringify Hparse Huser Hmiss.
  rewrite (saveState_storage env _ _ _ Huser), Hstringify. simpl.
  split; [apply lookup_insert_eq|].
  rewrite (loadState_after_remote_miss env _ _ Hmiss), lookup_insert_eq.
  simpl. by rewrite Hparse.
Qed.

End storage_composition.

Lemma loadState_after_saveState_other_witness :
  DataService.loadState Sample.offline
    (DataService.saveState Sample.offline "u1" Sample.state_u1 ∅).1 "u2"
  = DataService.loadState Sample.offline ∅ "u2".
Proof.
  apply (loadState_after_saveState_other Sample.offline ∅ "u1" "u2" Sample.state_u1).
  discriminate.
Defined.

Lemma saveState_last_wins_witness :
  (DataService.saveState Sample.offline "u1" Sample.state_u1
     (DataService.saveState Sample.offline "u2" Sample.state_u2 ∅).1).1
  = (DataService.saveState Sample.offline "u2" Sample.state_u2
       (DataService.saveState Sample.offline "u1" Sample.state_u1 ∅).1).1.
Proof.
  apply (saveState_last_wins Sample.offline ∅ "u1" "u2" Sample.state_u1 Sample.state_u2).
  discriminate.
Defined.

Lemma saveState_undefined_then_loadState_witness :
  DataService.loadState Sample.offline
    (DataService.saveState Sample.offline "u1" VUndefined ∅).1 "u1"
  = Normal (VObject (DataService.defaultState Sample.offline)).
Proof.
  apply (saveState_undefined_then_loadState Sample.offline ∅ "u1").
  - reflexivity.
  - reflexivity.
  - discriminate.
  - by apply remote_not_configured.
Defined.

(** ** More on [loadMasterState] *)
Section aggregator_more.
Context (env : Env).

(** X12: for rows of the declared type, [records], [messages] and
    [statuses] of the result of [loadMasterState] are those of the rows,
    one row after the other in the order of the rows, with nothing removed
    or reordered, and its [currentUser] is null. *)
Theorem loadMasterState_concatenates client rows :
  supabase env = Some client →
  select_all client = Normal (Reply (Some rows) None) →
  Forall (λ rw, row_typed rw = true) rows →
  ∃ merged,
    DataService.loadMasterState env = Normal (VObject merged) ∧
    obj_get merged "records" = VArray (flat_map records_of rows) ∧
    obj_get merged "messages" = VArray (flat_map messages_of rows) ∧
    obj_get merged "statuses" = VArray (flat_map statuses_of rows) ∧
    obj_get merged "currentUser" = VNull.
Proof.
  intros Hc Hsel Hty.
  destruct (loadMasterState_typed env _ _ Hc Hsel Hty) as (gs & -> & _).
  eexists. split; [reflexivity|]. by repeat split.
Qed.

(** One step of the merge, on any row: when it does not throw, the
    accumulator keeps its shape and its tasks, and its users, records,
    messages and statuses only grow at the end. *)
Lemma merge_row_shape us ts rs ms gs ss rw acc' :
  DataService.merge_row (accumulator us ts rs ms gs ss) rw = Normal acc' →
  ∃ us' rs' ms' gs' ss',
    acc' = accumulator (us ++ us') ts (rs ++ rs') (ms ++ ms') gs' (ss ++ ss').
Proof.
  unfold DataService.merge_row.
  destruct (truthy (state_json rw)); simpl.
  - destruct (member (state_json rw) "currentUser") as [cu|]; simpl; [|done].
    destruct (member (state_json rw) "records") as [r|]; simpl; [|done].
    destruct (iterate (or_else r (VArray []))) as [rs'|]; simpl; [|done].
    destruct (member (state_json rw) "messages") as [m|]; simpl; [|done].
    destruct (iterate (or_else m (VArray []))) as [ms'|]; simpl; [|done].
    destruct (member (state_json rw) "statuses") as [s|]; simpl; [|done].
    destruct (iterate (or_else s (VArray []))) as [ss'|]; simpl; [|done].
    destruct (member (state_json rw) "groups") as [g|]; simpl; [|done].
    destruct (iterate (or_else g (VArray []))) as [gs'|]; simpl; [|done].
    destruct (array_map _ (gs ++ gs')) as [entries|]; simpl; [|done].
    intros [= <-]. by eexists _, rs', ms', _, ss'.
  - intros [= <-]. exists [], [], [], gs, []. by rewrite !app_nil_r.
Qed.

Lemma reduce_shape ts rows :
  ∀ us rs ms gs ss acc',
    reduce DataService.merge_row rows (accumulator us ts rs ms gs ss) = Normal acc' →
    ∃ us' rs' ms' gs' ss',
      acc' = accumulator (us ++ us') ts (rs ++ rs') (ms ++ ms') gs' (ss ++ ss').
Proof.
  induction rows as [|rw rows IH]; intros us rs ms gs ss acc'; simpl.
  - intros [= <-]. exists [], [], [], gs, []. by rewrite !app_nil_r.
  - destruct (DataService.merge_row _ rw) as [acc1|] eqn:Hstep; simpl; [|done].
    apply merge_row_shape in Hstep as (us1 & rs1 & ms1 & gs1 & ss1 & ->).
    intros Hrest. apply IH in Hrest as (us2 & rs2 & ms2 & gs2 & ss2 & ->).
    exists (us1 ++ us2), (rs1 ++ rs2), (ms1 ++ ms2), gs2, (ss1 ++ ss2).
    by rewrite !app_assoc.
Qed.

(** X13: whatever the configuration, the answer of the remote and the
    content of the rows, [loadMasterState] completes normally with an object
    of the shape of the default state: its [users], [records], [messages],
    [groups] and [statuses] are arrays, its [users] start with the seeded
    users, its [tasks] are the seeded tasks and its [currentUser] is null. *)
Theorem loadMasterState_shape :
  ∃ more rs ms gs ss,
    DataService.loadMasterState env
      = Normal (VObject (accumulator (INITIAL_USERS env ++ more) (INITIAL_TASKS env)
                           rs ms gs ss)).
Proof.
  assert (DataService.defaultState env
          = accumulator (INITIAL_USERS env ++ []) (INITIAL_TASKS env) [] [] [] [])
    as Hdefault by (by rewrite app_nil_r).
  unfold DataService.loadMasterState, DataService.isCloudEnabled, DataService.the_client.
  destruct (supabase env) as [client|]; simpl;
    [|exists [], [], [], [], []; by rewrite Hdefault].
  destruct (select_all client) as [[[rows|] [err|]]|e]; simpl;
    try (exists [], [], [], [], []; by rewrite Hdefault).
  destruct (reduce DataService.merge_row rows (DataService.defaultState env))
    as [merged|e] eqn:Hred; simpl;
    [|exists [], [], [], [], []; by rewrite Hdefault].
  unfold DataService.defaultState in Hred.
  change [("users", VArray (INITIAL_USERS env)); ("tasks", VArray (INITIAL_TASKS env));
          ("records", VArray []); ("messages", VArray []); ("groups", VArray []);
          ("statuses", VArray []); ("currentUser", VNull)]
    with (accumulator (INITIAL_USERS env) (INITIAL_TASKS env) [] [] [] []) in Hred.
  apply reduce_shape in Hred as (us' & rs' & ms' & gs' & ss' & ->).
  by exists us', rs', ms', gs', ss'.
Qed.

Lemma Map_set_fresh m k v : k ∉ m.*1 → Map_set m k v = m ++ [(k, v)].
Proof.
  induction m as [|[k' v'] m IH]; simpl; intros Hk; [done|].
  destruct (same_value_zero k' k) eqn:Hkk.
  - apply same_value_zero_true in Hkk. subst. exfalso. apply Hk. by left.
  - f_equal. apply IH. intros H. apply Hk. by right.
Qed.

Lemma Map_fold_fresh entries : ∀ m,
  NoDup (m ++ entries).*1 → Map_fold m entries = m ++ entries.
Proof.
  induction entries as [|[k v] entries IH]; intros m Hnd; simpl.
  - by rewrite app_nil_r.
  - rewrite Map_set_fresh.
    + rewrite IH; rewrite <- app_assoc; done.
    + rewrite fmap_app in Hnd. apply NoDup_app in Hnd as (_ & Hnd & _).
      intros H. apply (Hnd _ H). by left.
Qed.

(** Groups with distinct ids pass through the [Map] unchanged. *)
Lemma dedupe_distinct gs : NoDup (group_id <$> gs) → dedupe gs = gs.
Proof.
  intros Hnd. unfold dedupe, Map_values.
  change (Map_new ((λ g, (group_id g, g)) <$> gs))
    with (Map_fold [] ((λ g, (group_id g, g)) <$> gs)).
  rewrite Map_fold_fresh.
  - simpl. rewrite <- list_fmap_compose. by rewrite list_fmap_id.
  - simpl. by rewrite <- list_fmap_compose.
Qed.

Lemma reduce_typed_distinct ts rows :
  Forall (λ rw, row_typed rw = true) rows →
  ∀ us rs ms gs ss,
    Forall (λ g, group_typed g = true) gs →
    NoDup (group_id <$> gs ++ flat_map groups_of rows) →
    ∃ acc,
      reduce DataService.merge_row rows (accumulator us ts rs ms gs ss) = Normal acc ∧
      obj_get acc "groups" = VArray (gs ++ flat_map groups_of rows).
Proof.
  induction 1 as [|rw rows Hrw _ IH]; intros us rs ms gs ss Hgs Hnd; simpl.
  - eexists. split; [reflexivity|]. by rewrite app_nil_r.
  - unfold row_typed in Hrw. destruct (is_nullish (state_json rw)) eqn:Hnull.
    + rewrite merge_row_skips by (by destruct (state_json rw)). simpl.
      assert (groups_of rw = []) as Hnone.
      { unfold groups_of. by destruct (state_json rw). }
      simpl in Hnd. rewrite Hnone in Hnd |- *. simpl in *. by apply IH.
    + simpl in Hrw.
      assert (Forall (λ g, group_typed g = true) (groups_of rw)) as Hnew.
      { unfold state_typed in Hrw. apply andb_true_iff in Hrw as [_ Hrw].
        by apply group_typed_elements. }
      rewrite merge_row_typed by done. simpl in Hnd |- *.
      rewrite app_assoc in Hnd.
      rewrite dedupe_distinct.
      * destruct (IH (us ++ current_user_of rw) (rs ++ records_of rw)
                    (ms ++ messages_of rw) (gs ++ groups_of rw)
                    (ss ++ statuses_of rw)) as (acc & Hacc & Hgroups);
          [by apply Forall_app|done|].
        exists acc. split; [done|]. by rewrite app_assoc.
      * rewrite fmap_app in Hnd. by apply NoDup_app in Hnd as (Hnd & _).
Qed.

(** X14: for rows of the declared type whose groups all have different
    ids, the [groups] of the result of [loadMasterState] are the groups of
    the rows, one row after the other: the merge by id then loses nothing
    and keeps the order. *)
Theorem loadMasterState_distinct_groups client rows :
  supabase env = Some client →
  select_all client = Normal (Reply (Some rows) None) →
  Forall (λ rw, row_typed rw = true) rows →
  NoDup (group_id <$> flat_map groups_of rows) →
  ∃ merged,
    DataService.loadMasterState env = Normal (VObject merged) ∧
    obj_get merged "groups" = VArray (flat_map groups_of rows).
Proof.
  intros Hc Hsel Hty Hnd. rewrite (loadMasterState_reduce env _ _ Hc Hsel).
  destruct (reduce_typed_distinct (INITIAL_TASKS env) rows Hty
              (INITIAL_USERS env) [] [] [] []) as (acc & Hacc & Hgroups); [done|done|].
  unfold DataService.defaultState.
  change [("users", VArray (INITIAL_USERS env)); ("tasks", VArray (INITIAL_TASKS env));
          ("records", VArray []); ("messages", VArray []); ("groups", VArray []);
          ("statuses", VArray []); ("currentUser", VNull)]
    with (accumulator (INITIAL_USERS env) (INITIAL_TASKS env) [] [] [] []).
  rewrite Hacc. by exists acc.
Qed.

End aggregator_more.

Lemma loadMasterState_concatenates_witness :
  ∃ merged,
    DataService.loadMasterState Sample.cloud = Normal (VObject merged) ∧
    obj_get merged "records"
      = VArray [Sample.record "u1" "2024-01-01" (Finite 30)].
Proof.
  destruct (loadMasterState_concatenates Sample.cloud Sample.answering Sample.rows)
    as (merged & Hload & Hrecords & _).
  - reflexivity.
  - reflexivity.
  - repeat constructor.
  - by exists merged.
Defined.

Lemma loadMasterState_distinct_groups_witness :
  ∃ merged,
    DataService.loadMasterState
        (with_client Sample.offline
           (Some (serving [Row Sample.state_u2; Row VNull])))
      = Normal (VObject merged) ∧
    obj_get merged "groups" = VArray [Sample.group "g1" "B"; Sample.group "g2" "C"].
Proof.
  apply (loadMasterState_distinct_groups
           (with_client Sample.offline (Some (serving [Row Sample.state_u2; Row VNull])))
           (serving [Row Sample.state_u2; Row VNull]) [Row Sample.state_u2; Row VNull]).
  - reflexivity.
  - reflexivity.
  - repeat constructor.
  - simpl. repeat constructor; intros H; repeat (apply elem_of_cons in H as [H|H]; [discriminate H|]); by inversion H.
Defined.

(** ** [signUp] and [signIn] *)
Section auth_facts.
Context (env : Env) (auth : AuthClient) (FRIEND : value).

Lemma obj_get_obj_set_eq o k v : obj_get (obj_set o k v) k = v.
Proof.
  induction o as [|[k' w] o IH]; simpl.
  - by rewrite String.eqb_refl.
  - destruct (String.eqb_spec k' k) as [->|Hne]; simpl.
    + by rewrite String.eqb_refl.
    + destruct (String.eqb_spec k' k); [done|]. exact IH.
Qed.

Lemma obj_get_obj_set_ne o k v k' : k' ≠ k → obj_get (obj_set o k v) k' = obj_get o k'.
Proof.
  intros Hne. induction o as [|[k0 w] o IH]; simpl.
  - destruct (String.eqb_spec k k'); [congruence|done].
  - destruct (String.eqb_spec k0 k) as [->|Hk0]; simpl.
    + destruct (String.eqb_spec k k'); [congruence|done].
    + destruct (String.eqb_spec k0 k'); [done|exact IH].
Qed.

(** X15: [signUp] fails with "Cloud not configured" when there is no
    client, whatever the arguments; with a client, a null or undefined
    [metadata] makes it throw a TypeError before the service is asked; and
    for an object [metadata] the service receives an object that has every
    other property of [metadata] unchanged and whose [role] is the one of
    [metadata] when that is truthy and [Role.FRIEND] otherwise: a role the
    caller supplies, whichever it is, is passed on. *)
Theorem signUp_role email password :
  (supabase env = None →
     ∀ metadata,
       Auth.signUp env auth FRIEND email password metadata
         = Throw (Rejected cloud_not_configured)) ∧
  (∀ client metadata, supabase env = Some client → is_nullish metadata = true →
     Auth.signUp env auth FRIEND email password metadata = Throw TypeError) ∧
  (∀ client o, supabase env = Some client →
     ∃ sent,
       Auth.signUp env auth FRIEND email password (VObject o)
         = (r ← auth_signUp auth email password (VObject sent);
            match auth_error r with
            | Some e => Throw (Rejected e)
            | None => Normal (user r)
            end) ∧
       obj_get sent "role"
         = (if truthy (obj_get o "role") then obj_get o "role" else FRIEND) ∧
       (∀ k, k ≠ "role" → obj_get sent k = obj_get o k)).
Proof.
  unfold Auth.signUp, Auth.signUp_data. split; [|split].
  - by intros ->.
  - intros client metadata -> Hnull. by destruct metadata.
  - intros client o ->. simpl. eexists. split; [reflexivity|]. split.
    + by rewrite obj_get_obj_set_eq.
    + intros k Hk. by apply obj_get_obj_set_ne.
Qed.

(** X16: [signIn] returns a user exactly when there is a client and the
    service resolves without an error, and the user is then the one of the
    answer; in every other case it throws. *)
Theorem signIn_succeeds_iff email password u :
  Auth.signIn env auth email password = Normal u ↔
  ∃ client r,
    supabase env = Some client ∧
    auth_signInWithPassword auth email password = Normal r ∧
    auth_error r = None ∧ user r = u.
Proof.
  unfold Auth.signIn. split.
  - destruct (supabase env) as [client|]; [|done].
    destruct (auth_signInWithPassword auth email password) as [r|e] eqn:Hr; simpl; [|done].
    destruct (auth_error r) eqn:He; [done|]. intros [= <-]. by exists client, r.
  - intros (client & r & -> & -> & He & <-). simpl. by rewrite He.
Qed.

End auth_facts.

Lemma signUp_role_witness :
  ∃ sent,
    Auth.signUp Sample.cloud SampleAuth.accepting (VString "FRIEND") "a@b.c" "secret"
      (VObject [("name", VString "Ann"); ("role", VString "ADMIN")])
    = (r ← auth_signUp SampleAuth.accepting "a@b.c" "secret" (VObject sent);
       match auth_error r with
       | Some e => Throw (Rejected e)
       | None => Normal (user r)
       end) ∧
    obj_get sent "role" = VString "ADMIN".
Proof.
  destruct (signUp_role Sample.cloud SampleAuth.accepting (VString "FRIEND")
              "a@b.c" "secret") as (_ & _ & Hsent).
  destruct (Hsent Sample.answering
              [("name", VString "Ann"); ("role", VString "ADMIN")] eq_refl)
    as (sent & Hup & Hrole & _).
  exists sent. by split.
Defined.

(** ** The session effects *)
Section session_facts.
Context (env : Env) (ADMIN FRIEND : value).

Lemma loadMasterState_total : ∃ v, DataService.loadMasterState env = Normal v.
Proof.
  unfold DataService.loadMasterState, DataService.isCloudEnabled, DataService.the_client.
  destruct (supabase env) as [client|]; simpl; [|eauto].
  destruct (select_all client) as [[[rows|] [err|]]|e]; simpl; eauto.
  destruct (reduce DataService.merge_row rows (DataService.defaultState env)); simpl; eauto.
Qed.

Lemma initData_unfold ls s :
  ∃ data,
    (if strict_equals (Session.role_of FRIEND s) ADMIN
     then DataService.loadMasterState env
     else DataService.loadState env ls (session_id s)) = Normal data ∧
    Session.initData env ADMIN FRIEND ls s
      = Normal (VObject (obj_set (own_props data) "currentUser"
                           (Session.userWithMeta FRIEND s))).
Proof.
  unfold Session.initData.
  destruct (strict_equals (Session.role_of FRIEND s) ADMIN).
  - destruct loadMasterState_total as [data ->]. by exists data.
  - destruct (loadState_total env ls (session_id s)) as [data ->]. by exists data.
Qed.

(** X17: [initData] never throws and always yields an object.  Its
    [currentUser] is the user built from the session, whatever the loaded
    state had there, with the role of the session's metadata when that is
    truthy and [Role.FRIEND] otherwise; every other property is the one of
    the loaded state.  For a session whose role is [Role.ADMIN] the loaded
    state is the one of [loadMasterState], so that neither the local cache
    nor the row of the user is read; for any other session it is the one of
    [loadState] for the id of the session. *)
Theorem initData_current_user (ls : gmap string string) (s : SessionUser) :
  ∃ data o,
    Session.initData env ADMIN FRIEND ls s = Normal (VObject o) ∧
    obj_get o "currentUser" = Session.userWithMeta FRIEND s ∧
    field (obj_get o "currentUser") "id" = VString (session_id s) ∧
    field (obj_get o "currentUser") "role"
      = (if truthy (field (user_metadata s) "role")
         then field (user_metadata s) "role" else FRIEND) ∧
    (∀ k, k ≠ "currentUser" → obj_get o k = obj_get (own_props data) k) ∧
    (if strict_equals (Session.role_of FRIEND s) ADMIN
     then DataService.loadMasterState env = Normal data
     else DataService.loadState env ls (session_id s) = Normal data).
Proof.
  destruct (initData_unfold ls s) as (data & Hdata & Hinit).
  exists data. eexists. split; [exact Hinit|].
  rewrite obj_get_obj_set_eq. split; [done|]. split; [done|]. split; [done|].
  split; [intros k Hk; by apply obj_get_obj_set_ne|].
  by destruct (strict_equals (Session.role_of FRIEND s) ADMIN).
Qed.

Lemma initData_role ls s st :
  Session.initData env ADMIN FRIEND ls s = Normal st →
  truthy st = true ∧
  field (field st "currentUser") "role" = Session.role_of FRIEND s.
Proof.
  destruct (initData_unfold ls s) as (data & _ & ->). intros [= <-].
  split; [done|]. simpl. by rewrite obj_get_obj_set_eq.
Qed.

(** X18: in a session whose role is [Role.ADMIN] the auto-save effect
    never writes the state that [initData] produced: the local cache is left
    as it is, at every run of the effect.  The merged view of
    [loadMasterState] is therefore never stored under any key. *)
Theorem autoSave_admin_never_writes
    (ls0 ls : gmap string string) (s s' : SessionUser) st syncing isInitialLoad :
  strict_equals (Session.role_of FRIEND s) ADMIN = true →
  Session.initData env ADMIN FRIEND ls0 s = Normal st →
  Session.autoSave env ADMIN
    {| state := Some st; sessionUser := Some s'; isSyncing := syncing |}
    isInitialLoad ls = ls.
Proof.
  intros Hadmin Hinit. apply initData_role in Hinit as [Htruthy Hrole].
  unfold Session.autoSave. simpl. rewrite Htruthy, Hrole, Hadmin. simpl.
  by destruct isInitialLoad.
Qed.

Lemma obj_set_same o k v : obj_get o k = v → In k o.*1 → obj_set o k v = o.
Proof.
  induction o as [|[k' w] o IH]; simpl; [done|].
  destruct (String.eqb_spec k' k) as [->|Hne].
  - intros ->. done.
  - intros Hget [?|Hin]; [done|]. f_equal. by apply IH.
Qed.



(** X20: [handleLogout] clears the state and the session and ends the
    syncing only when [signOut] completes, and then the cache of every user
    is still there; when [supabase.auth.signOut] rejects, the rejection
    reaches the caller, the state and the session stay, the local cache is
    untouched, and [isSyncing] is left true. *)
Theorem handleLogout_outcomes (vars : ShellVars) (ls : gmap string string) :
  (∀ client e, supabase env = Some client → auth_signOut client = Throw e →
     Session.handleLogout env vars ls
       = ({| state := state vars; sessionUser := sessionUser vars; isSyncing := true |},
          ls, Throw e)) ∧
  ((supabase env = None ∨
    ∃ client, supabase env = Some client ∧ auth_signOut client = Normal tt) →
     ∃ ls',
       Session.handleLogout env vars ls
         = ({| state := None; sessionUser := None; isSyncing := false |}, ls', Normal tt) ∧
       ls' !! STORAGE_KEY env = None ∧
       ∀ userId, ls' !! DataService.user_key env userId
                 = ls !! DataService.user_key env userId).
Proof.
  unfold Session.handleLogout, DataService.signOut, removeItem. split.
  - intros client e -> ->. done.
  - intros Hok. exists (delete (STORAGE_KEY env) ls). split.
    + destruct Hok as [->|(client & -> & ->)]; done.
    + split; [apply lookup_delete_eq|].
      intros userId. apply lookup_delete_ne. intros H.
      symmetry in H. by apply user_key_not_global in H.
Qed.

End session_facts.

Lemma autoSave_admin_never_writes_witness :
  ∃ st,
    Session.initData Sample.cloud (VString "ADMIN") (VString "FRIEND") ∅ SampleSession.boss
      = Normal st ∧
    Session.autoSave Sample.cloud (VString "ADMIN")
      {| state := Some st; sessionUser := Some SampleSession.boss; isSyncing := false |}
      false ∅ = ∅.
Proof.
  eexists. split; [reflexivity|].
  apply (autoSave_admin_never_writes Sample.cloud (VString "ADMIN") (VString "FRIEND")
           ∅ ∅ SampleSession.boss SampleSession.boss); reflexivity.
Defined.


Lemma handleLogout_outcomes_witness :
  Session.handleLogout Sample.failing
    {| state := Some Sample.state_u1; sessionUser := Some SampleSession.ann;
       isSyncing := false |} ∅
  = ({| state := Some Sample.state_u1; sessionUser := Some SampleSession.ann;
        isSyncing := true |}, ∅, Throw (Rejected (VString "network"))).
Proof.
  destruct (handleLogout_outcomes Sample.failing
              {| state := Some Sample.state_u1; sessionUser := Some SampleSession.ann;
                 isSyncing := false |} ∅) as [Hthrow _].
  by apply (Hthrow Sample.unreachable).
Defined.

(** ** The earlier, single-key service *)
Section legacy_facts.
Context (env : Env) (api : RestApi).

Lemma or_else_idem a d : or_else (or_else a d) d = or_else a d.
Proof. unfold or_else. destruct (truthy a) eqn:Ha; [by rewrite Ha|]. by destruct (truthy d). Qed.

Lemma member_field v name :
  is_nullish v = false → member v name = Normal (field v name).
Proof. by destruct v. Qed.

(** What the second and the third step of [loadState] yield together. *)
Lemma legacy_local ls :
  Legacy.first_row api = None →
  Legacy.loadState env api ls =
    match ls !! STORAGE_KEY env with
    | Some saved =>
        if nonempty saved then
          match JSON_parse env saved with
          | Normal parsed => Normal (Legacy.completed env parsed)
          | Throw _ => Normal (VObject (DataService.defaultState env))
          end
        else Normal (VObject (DataService.defaultState env))
    | None => Normal (VObject (DataService.defaultState env))
    end.
Proof.
  unfold Legacy.first_row, Legacy.loadState, getItem. intros Hrow.
  assert ((if Legacy.isCloudEnabled api
           then try_catch
                  (response ← await (fetch_select api);
                   if ok response
                   then data ← await (json response);
                        match data with
                        | Some (rw :: _) => Return (state_json rw)
                        | _ => Next tt
                        end
                   else Next tt) (λ _ : exn, Next tt)
           else Next tt) = (Next tt : stmt value unit)) as ->.
  { destruct (Legacy.isCloudEnabled api); [|done].
    destruct (fetch_select api) as [response|e]; [|done]. simpl.
    destruct (ok response); [|done].
    destruct (json response) as [[[|rw rows]|]|e]; done. }
  simpl. destruct (ls !! STORAGE_KEY env) as [saved|]; [|done].
  destruct (nonempty saved); [|done].
  destruct (JSON_parse env saved) as [parsed|e]; [|done].
  destruct parsed; done.
Qed.

Lemma legacy_remote ls rw :
  Legacy.first_row api = Some rw →
  Legacy.loadState env api ls = Normal (state_json rw).
Proof.
  unfold Legacy.first_row, Legacy.loadState. 
  destruct (Legacy.isCloudEnabled api); [|done].
  destruct (fetch_select api) as [response|e]; [|done]. simpl.
  destruct (ok response); [|done].
  destruct (json response) as [[[|rw' rows]|]|e]; try done.
  by intros [= ->].
Qed.

(** X21: the earlier [loadState] never throws.  Unless the endpoint
    answered with a row, whose [state_json] is then returned as it is, the
    result is an object of exactly the seven fields of the state, in which
    [users], [tasks], [records], [messages], [groups] and [statuses] are
    truthy and [currentUser] is truthy or [null]: whatever the cache holds
    and whatever [JSON.parse] makes of it. *)
Theorem legacy_loadState_complete (ls : gmap string string) :
  ∃ v, Legacy.loadState env api ls = Normal v ∧
    match Legacy.first_row api with
    | Some rw => v = state_json rw
    | None =>
        (own_props v).*1
          = ["users"; "tasks"; "records"; "messages"; "groups"; "statuses"; "currentUser"] ∧
        Forall (λ k, truthy (field v k) = true)
          ["users"; "tasks"; "records"; "messages"; "groups"; "statuses"] ∧
        (truthy (field v "currentUser") = true ∨ field v "currentUser" = VNull)
    end.
Proof.
  destruct (Legacy.first_row api) as [rw|] eqn:Hrow.
  - exists (state_json rw). split; [by apply legacy_remote|done].
  - rewrite (legacy_local ls Hrow).
    assert (∀ parsed,
      (own_props (Legacy.completed env parsed)).*1
        = ["users"; "tasks"; "records"; "messages"; "groups"; "statuses"; "currentUser"] ∧
      Forall (λ k, truthy (field (Legacy.completed env parsed) k) = true)
        ["users"; "tasks"; "records"; "messages"; "groups"; "statuses"] ∧
      (truthy (field (Legacy.completed env parsed) "currentUser") = true
       ∨ field (Legacy.completed env parsed) "currentUser" = VNull)) as Hcompleted.
    { intros parsed. split; [done|]. split.
      - repeat apply Forall_cons_2; try apply Forall_nil_2;
          simpl; unfold or_else;
          match goal with |- context [truthy (field parsed ?k)] =>
            by destruct (truthy (field parsed k)) eqn:H end.
      - simpl. unfold or_else.
        destruct (truthy (field parsed "currentUser")) eqn:H; auto. }
    assert (Legacy.completed env VUndefined = VObject (DataService.defaultState env))
      as Hfresh by done.
    destruct (ls !! STORAGE_KEY env) as [saved|].
    + destruct (nonempty saved).
      * destruct (JSON_parse env saved) as [parsed|e]; eexists; (split; [done|]).
        -- apply Hcompleted.
        -- rewrite <- Hfresh. apply Hcompleted.
      * eexists. split; [done|]. rewrite <- Hfresh. apply Hcompleted.
    + eexists. split; [done|]. rewrite <- Hfresh. apply Hcompleted.
Qed.

(** X22: without an answering endpoint, [loadState] after the earlier
    [saveState] of a state that has a JSON text of its own yields the state
    completed with the fields of the fresh state: a state that [loadState]
    produced on the local path is read back as it is, and everything
    outside the seven fields is dropped. *)
Theorem legacy_saveState_loadState (ls : gmap string string) (st : value) :
  JSON_stringify env = JSON.stringify →
  JSON_parse env = JSON_parse_model →
  Legacy.first_row api = None →
  json_safe st = true →
  Legacy.loadState env api (Legacy.saveState env api st ls).1
    = Normal (Legacy.completed env st) ∧
  Legacy.completed env (Legacy.completed env st) = Legacy.completed env st.
Proof.
  intros Hstringify Hparse Hrow Hsafe. split.
  - destruct (parse_stringify st Hsafe) as (text & Htext & Hne & Hback).
    rewrite (legacy_local _ Hrow). unfold Legacy.saveState, setItem. simpl.
    rewrite lookup_insert_eq, Hstringify, Htext. simpl.
    rewrite (nonempty_true _ Hne), Hparse. unfold JSON_parse_model.
    by rewrite Hback.
  - unfold Legacy.completed. simpl. by rewrite !or_else_idem.
Qed.

End legacy_facts.

Lemma legacy_saveState_loadState_witness :
  Legacy.loadState Sample.offline SampleLegacy.local_only
    (Legacy.saveState Sample.offline SampleLegacy.local_only
       (VObject [("records", VArray []); ("theme", VString "dark")]) ∅).1
  = Normal (Legacy.completed Sample.offline
              (VObject [("records", VArray []); ("theme", VString "dark")])).
Proof.
  apply (legacy_saveState_loadState Sample.offline SampleLegacy.local_only ∅
           (VObject [("records", VArray []); ("theme", VString "dark")]));
    reflexivity.
Defined.
